(** * GoStreamProxy: a shallow embedding of the request/response rewriting core

    The repository ships three revisions of the same program:
    - [main.go]             (idle-timeout buffer pool, X-Proxy-Invalid marker,
                             shaper that only sets CORS and counts traffic);
    - [unnamed/part_001]    (plain buffer pool, X-Proxy-Invalid marker,
                             shaper with the chunked-transfer policy);
    - [unnamed/part_002]    (plain buffer pool, handler-side route check,
                             shaper with the chunked-transfer policy).
    [loadRoutes] and [findRoute] are textually the same in all three; the
    revision-specific functions live in the modules [MainGo], [Part001] and
    [Part002] below. *)

From Stdlib Require Import ZArith Lia Ascii.
From stdpp Require Import gmap strings list fin_maps.

Local Open Scope Z_scope.

(** ** Go's [strings] package, as far as [findRoute] calls it

    A Go string is a sequence of bytes; [string] (a list of [ascii]) is the
    same thing. *)
Module strings.

Fixpoint drop (n : nat) (s : string) : string :=
  match n, s with
  | O, _ => s
  | S n', String _ s' => drop n' s'
  | S _, EmptyString => EmptyString
  end.

Fixpoint take (n : nat) (s : string) : string :=
  match n, s with
  | O, _ => EmptyString
  | S n', String c s' => String c (take n' s')
  | S _, EmptyString => EmptyString
  end.

(** [strings.HasPrefix(s, prefix)] *)
Fixpoint HasPrefix (s prefix : string) {struct prefix} : bool :=
  match prefix, s with
  | EmptyString, _ => true
  | String p prefix', String c s' =>
      if Ascii.eqb c p then HasPrefix s' prefix' else false
  | String _ _, EmptyString => false
  end.

(** [strings.TrimPrefix(s, prefix)]: [s] without the leading [prefix];
    [s] itself when it does not start with [prefix]. *)
Definition TrimPrefix (s prefix : string) : string :=
  if HasPrefix s prefix then drop (String.length prefix) s else s.

(** [strings.Index(s, sep)]: the index of the first instance of [sep] in
    [s]; Go's [-1] is [None] here. *)
Fixpoint Index (s sep : string) : option nat :=
  if HasPrefix s sep then Some O
  else match s with
       | EmptyString => None
       | String _ s' => option_map S (Index s' sep)
       end.

(** The loop of [genSplit]: at most [n] cuts, the rest of the string is the
    last element. *)
Fixpoint splitLoop (n : nat) (s sep : string) : list string :=
  match n with
  | O => [s]
  | S n' =>
      match Index s sep with
      | None => [s]
      | Some m =>
          take m s :: splitLoop n' (drop (m + String.length sep) s) sep
      end
  end.

(** [strings.SplitN(s, sep, n)] for a non-empty [sep] and [n >= 0], the only
    way the program calls it ([sep = "/"], [n = 2]): [n = 0] gives the nil
    slice, otherwise [n] is clamped to [len(s)+1] and [n-1] cuts are
    attempted. *)
Definition SplitN (s sep : string) (n : nat) : list string :=
  match n with
  | O => []
  | S _ =>
      let n := Nat.min n (String.length s + 1) in
      splitLoop (n - 1) s sep
  end.

(** [strings.Join(elems, sep)] *)
Fixpoint Join (elems : list string) (sep : string) : string :=
  match elems with
  | [] => EmptyString
  | [e] => e
  | e :: rest => e +:+ sep +:+ Join rest sep
  end.

End strings.

(** ** The route table and its lookup (identical in the three revisions) *)

(** [findRoute]: the global [routes] is read under [routeMutex.RLock]; it is
    passed in explicitly.  Returns (route, remaining path, found). *)
Definition findRoute (routes : gmap string string) (path : string)
  : string * string * bool :=
  let parts := strings.SplitN (strings.TrimPrefix path "/") "/" 2 in
  if (length parts <? 1)%nat then ("", "", false)
  else
    let prefix := nth 0 parts "" in
    match routes !! prefix with
    | Some route =>
        let remainingPath :=
          if (1 <? length parts)%nat then nth 1 parts "" else "" in
        (route, remainingPath, true)
    | None => ("", "", false)
    end.

(** ** The lookup in the words of the specification

    "the first path segment of p (after stripping one leading '/')" and
    "everything after the separator following that first segment, or the
    empty string if there is none". *)
Module PathSpec.

Definition strip_leading_slash (p : string) : string :=
  match p with
  | String "/" rest => rest
  | _ => p
  end.

(** The characters before the first ['/'] (all of them if there is none). *)
Fixpoint upto_slash (s : string) : string :=
  match s with
  | EmptyString => EmptyString
  | String c s' => if Ascii.eqb c "/" then EmptyString else String c (upto_slash s')
  end.

(** What follows the first ['/'], if there is one. *)
Fixpoint after_slash (s : string) : option string :=
  match s with
  | EmptyString => None
  | String c s' => if Ascii.eqb c "/" then Some s' else after_slash s'
  end.

Definition first_segment (p : string) : string :=
  upto_slash (strip_leading_slash p).

Definition remainder (p : string) : string :=
  default "" (after_slash (strip_leading_slash p)).

(** No ['/'] occurs in [s]. *)
Fixpoint slash_free (s : string) : bool :=
  match s with
  | EmptyString => true
  | String c s' => negb (Ascii.eqb c "/") && slash_free s'
  end.

Definition starts_with_slash (s : string) : bool :=
  match s with
  | String c _ => Ascii.eqb c "/"
  | EmptyString => false
  end.

(** No two ['/'] in a row. *)
Fixpoint no_double_slash (s : string) : bool :=
  match s with
  | EmptyString => true
  | String c s' =>
      negb (Ascii.eqb c "/" && starts_with_slash s') && no_double_slash s'
  end.

Fixpoint ends_with_slash (s : string) : bool :=
  match s with
  | EmptyString => false
  | String c EmptyString => Ascii.eqb c "/"
  | String _ s' => ends_with_slash s'
  end.

(** "duplicate/trailing slashes normalized", for a rooted path: it starts
    with the separator, has no doubled separator, and ends with one only
    when it is the root itself. *)
Definition normalized (p : string) : bool :=
  starts_with_slash p && no_double_slash p
  && (String.eqb p "/" || negb (ends_with_slash p)).

End PathSpec.


(** ** HTTP data, as far as the program reads and writes it *)

(** [textproto.CanonicalMIMEHeaderKey], which [http.Header]'s [Get], [Set]
    and [Del] apply to their key: a key made of header-token bytes only gets
    an upper-case first letter and an upper-case letter after every ['-'],
    all other letters lower-case; a key with any other byte is returned
    unchanged. *)
Module textproto.

Definition isLower (c : ascii) : bool :=
  ((97 <=? N_of_ascii c) && (N_of_ascii c <=? 122))%N.

Definition isUpper (c : ascii) : bool :=
  ((65 <=? N_of_ascii c) && (N_of_ascii c <=? 90))%N.

Definition isDigit (c : ascii) : bool :=
  ((48 <=? N_of_ascii c) && (N_of_ascii c <=? 57))%N.

Fixpoint mem (c : ascii) (s : string) : bool :=
  match s with
  | EmptyString => false
  | String d s' => Ascii.eqb c d || mem c s'
  end.

Definition validHeaderFieldByte (c : ascii) : bool :=
  isLower c || isUpper c || isDigit c || mem c "!#$%&'*+-.^_`|~".

Fixpoint allValid (s : string) : bool :=
  match s with
  | EmptyString => true
  | String c s' => validHeaderFieldByte c && allValid s'
  end.

(** 'a' - 'A' *)
Definition toLower : N := 32.

Fixpoint canonicalize (upper : bool) (s : string) : string :=
  match s with
  | EmptyString => EmptyString
  | String c s' =>
      let c' :=
        if upper && isLower c then ascii_of_N (N_of_ascii c - toLower)
        else if negb upper && isUpper c then ascii_of_N (N_of_ascii c + toLower)
        else c in
      String c' (canonicalize (Ascii.eqb c' "-") s')
  end.

Definition CanonicalMIMEHeaderKey (s : string) : string :=
  if allValid s then canonicalize true s else s.

End textproto.

(** [http.Header] is [map[string][]string] keyed by canonical names. *)
Abbreviation Header := (gmap string (list string)).

(** [Header.Get]: the first value stored under the key, [""] if none. *)
Definition Header_Get (h : Header) (key : string) : string :=
  match h !! textproto.CanonicalMIMEHeaderKey key with
  | Some (v :: _) => v
  | _ => ""
  end.

(** [Header.Set]: replaces whatever is stored under the key by the single
    value. *)
Definition Header_Set (h : Header) (key value : string) : Header :=
  <[ textproto.CanonicalMIMEHeaderKey key := [value] ]> h.

(** [Header.Del] *)
Definition Header_Del (h : Header) (key : string) : Header :=
  delete (textproto.CanonicalMIMEHeaderKey key) h.

(** The fields of [url.URL], [http.Request] and [http.Response] that the
    program touches. *)
Record URL := mkURL {
  url_Scheme : string;
  url_Host : string;
  url_Path : string
}.

Record Request := mkRequest {
  req_Method : string;
  req_URL : URL;
  req_Host : string;
  req_Header : Header;
  req_RemoteAddr : string
}.

Record Response := mkResponse {
  resp_StatusCode : Z;
  resp_Header : Header;
  resp_ContentLength : Z;           (* int64; -1 when unknown *)
  resp_TransferEncoding : list string;
  resp_Request : Request
}.

(** Go's [error] values are opaque to the program, which only tests them
    against [nil] and prints them. *)
Abbreviation error := string (only parsing).

(** What [logger.Printf] is called with.  The formatted durations and
    megabyte figures are left out; sizes are kept as the integers they are
    computed from. *)
Inductive LogEntry :=
| LogRoutesReloaded (count : nat)
| LogReloadFailed (err : error)
| LogForward (from to : string)
| LogChunked (path contentType : string) (contentLength : Z)
| LogResponse (method : string) (status : Z) (path : string)
| LogResponseSize (method : string) (status : Z) (path : string) (contentLength : Z)
| Log404 (method path : string)
| LogRequest (method path remoteAddr : string)
| LogPoolCleaned.

(** What the program does to the outside: file-system calls, JSON decoding,
    the transport's round trip and log lines, in the order they happen. *)
Inductive Event :=
| EvStat (path : string)
| EvReadFile (path : string)
| EvUnmarshal (data : string)
| EvRoundTrip (outreq : Request)
| EvLog (entry : LogEntry).

(** ** Route reload (identical in the three revisions) *)

Definition routesFilePath : string := "routes.json".

(** The package-level variables [routes] and [lastMod].  A [time.Time] is
    the integer count of nanoseconds since the zero time, so the zero value
    of [lastMod] is [0] and [t.After(u)] is [t > u]. *)
Record Globals := mkGlobals {
  routes : gmap string string;
  lastMod : Z
}.

Definition zeroGlobals : Globals := {| routes := ∅; lastMod := 0 |}.

Definition After (t u : Z) : bool := u <? t.

(** What the file system answers during one call of [loadRoutes]:
    [os.Stat(routesFilePath)] (the modification time, or an error) and
    [ioutil.ReadFile(routesFilePath)] (the bytes, or an error). *)
Record RouteSource := mkRouteSource {
  src_Stat : error + Z;
  src_ReadFile : error + string
}.

Section Reload.

(** [json.Unmarshal(file, &config)] for [config] of type
    [struct { Routes map[string]string `json:"routes"` }]: the decoded
    [Routes] field (the nil map, [∅], when the document has no such
    field), or an error.  [encoding/json] is not part of the repository. *)
Variable json_Unmarshal : string → error + gmap string string.

(** [loadRoutes]: the returned option is Go's [error] result ([None] is
    [nil]). *)
Definition loadRoutes (fs : RouteSource) (g : Globals)
  : option error * Globals * list Event :=
  match src_Stat fs with
  | inl err => (Some err, g, [EvStat routesFilePath])
  | inr modTime =>
      if negb (After modTime (lastMod g)) then
        (None, g, [EvStat routesFilePath])
      else
        match src_ReadFile fs with
        | inl err =>
            (Some err, g, [EvStat routesFilePath; EvReadFile routesFilePath])
        | inr file =>
            match json_Unmarshal file with
            | inl err =>
                (Some err, g,
                 [EvStat routesFilePath; EvReadFile routesFilePath;
                  EvUnmarshal file])
            | inr config_Routes =>
                let g' := {| routes := config_Routes; lastMod := modTime |} in
                (None, g',
                 [EvStat routesFilePath; EvReadFile routesFilePath;
                  EvUnmarshal file;
                  EvLog (LogRoutesReloaded (size (routes g')))])
            end
        end
  end.

(** [startRouteReloader]: one [loadRoutes] per tick of the ticker, a
    failure is logged and the loop goes on.  [ticks] lists what the file
    system answers at each tick. *)
Fixpoint routeReloader (ticks : list RouteSource) (g : Globals)
  : Globals * list Event :=
  match ticks with
  | [] => (g, [])
  | fs :: ticks' =>
      let '(err, g1, tr) := loadRoutes fs g in
      let tr1 :=
        match err with
        | Some e => tr ++ [EvLog (LogReloadFailed e)]
        | None => tr
        end in
      let '(g2, tr2) := routeReloader ticks' g1 in
      (g2, tr1 ++ tr2)
  end.

End Reload.

(** Number of JSON decodings in a trace, and of those that ended in a
    table swap: [loadRoutes] logs [LogRoutesReloaded] exactly after a
    successful decode. *)
Definition is_parse (e : Event) : bool :=
  match e with EvUnmarshal _ => true | _ => false end.

Definition is_read (e : Event) : bool :=
  match e with EvReadFile _ => true | _ => false end.

Definition is_reloaded (e : Event) : bool :=
  match e with EvLog (LogRoutesReloaded _) => true | _ => false end.

Definition count_events (f : Event → bool) (tr : list Event) : nat :=
  length (filter (λ e, f e = true) tr).

(** A stand-in for the JSON decoder, for running the reload on concrete
    inputs: it knows one well-formed document and rejects everything else. *)
Definition dquote : string := String (ascii_of_N 34) EmptyString.

Definition sample_routes_json : string :=
  "{" +:+ dquote +:+ "routes" +:+ dquote +:+ ":{"
      +:+ dquote +:+ "media" +:+ dquote +:+ ":"
      +:+ dquote +:+ "cdn/media" +:+ dquote +:+ "}}".

Definition sample_Unmarshal (data : string) : error + gmap string string :=
  if String.eqb data sample_routes_json
  then inr {[ "media" := "cdn/media" ]}
  else inl "invalid character".

(** ** [path/filepath] on a Unix target, as far as the Director calls it *)
Module filepath.

(** The path elements between separators, as [strings.Split(path, "/")]
    lists them. *)
Fixpoint elements (path : string) : list string :=
  match path with
  | EmptyString => [EmptyString]
  | String c path' =>
      if Ascii.eqb c "/" then EmptyString :: elements path'
      else match elements path' with
           | e :: es => String c e :: es
           | [] => [String c EmptyString]
           end
  end.

(** One round of the loop of [Clean], on the element that starts at the
    read index.  [out] is the output buffer as the list of elements written
    so far, the last one first; [dotdot] counts the leading [".."] elements
    that backtracking must not remove. *)
Definition cleanStep (rooted : bool) (st : list string * nat) (e : string)
  : list string * nat :=
  let '(out, dotdot) := st in
  if String.eqb e "" then st                     (* empty path element *)
  else if String.eqb e "." then st               (* . element *)
  else if String.eqb e ".." then                 (* .. element *)
    if (dotdot <? length out)%nat then (tail out, dotdot)  (* can backtrack *)
    else if negb rooted then (".." :: out, S (length out))
    else st
  else (e :: out, dotdot).                       (* real path element *)

(** [filepath.Clean]: the shortest equivalent path by lexical processing. *)
Definition Clean (path : string) : string :=
  if String.eqb path "" then "."
  else
    let rooted := strings.HasPrefix path "/" in
    let out := (foldl (cleanStep rooted) ([], O) (elements path)).1 in
    let body := strings.Join (rev out) "/" in
    if rooted then "/" +:+ body
    else if String.eqb body "" then "." else body.

(** [filepath.Join]: the elements from the first non-empty one on, joined
    with the separator and cleaned; [""] when all are empty. *)
Fixpoint Join (elem : list string) : string :=
  match elem with
  | [] => ""
  | e :: rest =>
      if String.eqb e "" then Join rest
      else Clean (strings.Join elem "/")
  end.

End filepath.

(** ** [sync.Pool] holding byte slices *)

(** A [[]byte] value as far as the pool looks at it: length and capacity. *)
Record Buffer := mkBuffer {
  buf_len : Z;
  buf_cap : Z
}.

(** [make([]byte, size)] *)
Definition make_bytes (size : Z) : Buffer := {| buf_len := size; buf_cap := size |}.

(** [buf[:n]], for [0 <= n <= cap(buf)] (every use below sits under a guard
    that establishes it): same backing array, length [n]. *)
Definition reslice (buf : Buffer) (n : Z) : Buffer :=
  {| buf_len := n; buf_cap := buf_cap buf |}.

(** Go's [int] on a 64-bit target. *)
Definition wrap_int (z : Z) : Z := (z + 2^63) mod 2^64 - 2^63.

Module sync.

(** [Pool.Get]: "selects an arbitrary item from the Pool, removes it from
    the Pool, and returns it"; it "may choose to ignore the pool and treat
    it as empty", and then returns [New()].  [pick] is that choice: the
    index of the pooled item taken, or [None]. *)
Definition Pool_Get (pick : option nat) (new : Buffer) (items : list Buffer)
  : Buffer * list Buffer :=
  match pick with
  | Some i =>
      match items !! i with
      | Some x => (x, delete i items)
      | None => (new, items)
      end
  | None => (new, items)
  end.

(** [Pool.Put] *)
Definition Pool_Put (x : Buffer) (items : list Buffer) : list Buffer :=
  x :: items.

End sync.

(** ** The proxy pipeline around the program's callbacks *)

(** What the client gets: the handler's own [http.NotFound], the
    [ReverseProxy]'s default error handler (502) when the round trip fails,
    or the upstream response after [ModifyResponse]. *)
Inductive Reply :=
| ReplyNotFound
| ReplyBadGateway
| ReplyUpstream (resp : Response).

Section ReverseProxy.

(** [proxy.Transport]: the round trip to the upstream, with the library's
    housekeeping around it. *)
Variable RoundTrip : Request → error + Response.
Variable Director : Request → Request * list Event.
Variable ModifyResponse : Response → Response * list Event.

(** [httputil.ReverseProxy.ServeHTTP], reduced to its use of the three
    callbacks, for the calls that return: the Director rewrites a clone of
    the inbound request, the proxy dispatches it, a response goes through
    [ModifyResponse].  [EvRoundTrip] records the dispatch with the request as
    the Director left it.  What the library does to that request before
    the transport sees it (hop-by-hop headers dropped, X-Forwarded-For and an
    empty User-Agent added) and to the response before [ModifyResponse] sees
    it is not code of the repository and is not modelled apart: [RoundTrip]
    stands for all that happens between the Director's return and the call
    of [ModifyResponse].  The body copy is not modelled either; when it fails
    the library panics with [http.ErrAbortHandler] and the call does not
    return. *)
Definition ServeHTTP (req : Request) : Reply * list Event :=
  let '(outreq, tr1) := Director req in
  match RoundTrip outreq with
  | inl _ => (ReplyBadGateway, tr1 ++ [EvRoundTrip outreq])
  | inr res =>
      let '(res', tr2) := ModifyResponse res in
      (ReplyUpstream res', tr1 ++ [EvRoundTrip outreq] ++ tr2)
  end.

End ReverseProxy.

Definition is_dispatch (e : Event) : bool :=
  match e with EvRoundTrip _ => true | _ => false end.

(** [url.Parse(targetURL)] for [targetURL = "https://www.xxx.com"]. *)
Definition target : URL :=
  {| url_Scheme := "https"; url_Host := "www.xxx.com"; url_Path := "" |}.

Definition userAgent : string :=
  "Mozilla/5.0 (Windows NT 10.0; Win64; x64) AppleWebKit/537.36 (KHTML, like Gecko) Chrome/136.0.0.0 Safari/537.36".

(** [for k, v := range fixedHeaders { req.Header.Set(k, v) }] *)
Definition setFixedHeaders (fixedHeaders : list (string * string)) (h : Header)
  : Header :=
  foldl (λ h kv, Header_Set h kv.1 kv.2) h fixedHeaders.

(** ** Revision [main.go] *)
Module MainGo.

Definition bufferSize : Z := 16 * 1024 * 1024.

Definition fixedHeaders : list (string * string) :=
  [ ("Host", "www.xxx.com");
    ("User-Agent", userAgent);
    ("Referer", "https://www.xxx.com") ].

(** [bufferPool]: the items of the [sync.Pool] (whose [New] is
    [make([]byte, size)]), the configured size, whether [idleTimer] is
    armed, and the count of buffers handed out. *)
Record bufferPool := mkBufferPool {
  pool : list Buffer;
  size : Z;
  idleTimerArmed : bool;
  active : Z
}.

(** [newBufferPool]: the timer is created and stopped at once. *)
Definition newBufferPool (size : Z) : bufferPool :=
  {| pool := []; size := size; idleTimerArmed := false; active := 0 |}.

Definition Get (pick : option nat) (b : bufferPool) : Buffer * bufferPool :=
  let '(buf, items) := sync.Pool_Get pick (make_bytes (size b)) (pool b) in
  (buf,
   {| pool := items; size := size b;
      idleTimerArmed := false;                       (* idleTimer.Stop() *)
      active := wrap_int (active b + 1) |}).

Definition Put (buf : Buffer) (b : bufferPool) : bufferPool :=
  let items :=
    if buf_cap buf =? size b
    then sync.Pool_Put (reslice buf (size b)) (pool b)
    else pool b in
  let active' := wrap_int (active b - 1) in
  {| pool := items; size := size b;
     idleTimerArmed :=
       if active' <=? 0 then true                    (* idleTimer.Reset *)
       else idleTimerArmed b;
     active := active' |}.

(** The loop of [cleanup]: [b.pool.Get()] up to ten times.  The pool has a
    [New], so [Get] never returns nil and the loop never breaks early. *)
Fixpoint drain (n : nat) (picks : nat → option nat) (b : bufferPool) : bufferPool :=
  match n with
  | O => b
  | S n' =>
      let '(_, items) :=
        sync.Pool_Get (picks n') (make_bytes (size b)) (pool b) in
      drain n' picks
        {| pool := items; size := size b;
           idleTimerArmed := idleTimerArmed b; active := active b |}
  end.

(** [cleanup], the function the idle timer runs: it takes the mutex and,
    if no buffer is handed out, drains the pool.  It makes no call on
    [idleTimer]: the timer stops being pending when it fires, before
    [cleanup] runs, and a [Put] that gets the mutex first arms it again. *)
Definition cleanup (picks : nat → option nat) (b : bufferPool)
  : bufferPool * list Event :=
  if active b <=? 0
  then (drain 10 picks b, [EvLog LogPoolCleaned])
  else (b, []).

Definition Director (routes : gmap string string) (req : Request)
  : Request * list Event :=
  let '(mappedPath, remainingPath, exists_) :=
    findRoute routes (url_Path (req_URL req)) in
  if negb exists_ then
    ({| req_Method := req_Method req; req_URL := req_URL req;
        req_Host := req_Host req;
        req_Header := Header_Set (req_Header req) "X-Proxy-Invalid" "1";
        req_RemoteAddr := req_RemoteAddr req |}, [])
  else
    let newPath := filepath.Join ["/"; mappedPath; remainingPath] in
    let header := setFixedHeaders fixedHeaders (req_Header req) in
    let header := Header_Del header "Accept-Encoding" in
    let header := Header_Del header "If-Modified-Since" in
    ({| req_Method := req_Method req;
        req_URL := {| url_Scheme := url_Scheme target;
                      url_Host := url_Host target;
                      url_Path := newPath |};
        req_Host := url_Host target;
        req_Header := header;
        req_RemoteAddr := req_RemoteAddr req |},
     [EvLog (LogForward (url_Path (req_URL req)) newPath)]).

(** [ModifyResponse]; always returns the nil error.  The running
    [networkDataCount] (a float64 sum used only by the memory monitor's log
    line) is not part of the model. *)
Definition ModifyResponse (resp : Response) : Response * list Event :=
  ({| resp_StatusCode := resp_StatusCode resp;
      resp_Header := Header_Set (resp_Header resp) "Access-Control-Allow-Origin" "*";
      resp_ContentLength := resp_ContentLength resp;
      resp_TransferEncoding := resp_TransferEncoding resp;
      resp_Request := resp_Request resp |},
   [EvLog (LogResponseSize (req_Method (resp_Request resp))
             (resp_StatusCode resp)
             (url_Path (req_URL (resp_Request resp)))
             (resp_ContentLength resp))]).

Definition handler (RoundTrip : Request → error + Response)
    (routes : gmap string string) (r : Request) : Reply * list Event :=
  if String.eqb (Header_Get (req_Header r) "X-Proxy-Invalid") "1" then
    (ReplyNotFound, [EvLog (Log404 (req_Method r) (url_Path (req_URL r)))])
  else
    let '(reply, tr) :=
      ServeHTTP RoundTrip (Director routes) ModifyResponse r in
    (reply,
     tr ++ [EvLog (LogRequest (req_Method r) (url_Path (req_URL r))
                     (req_RemoteAddr r))]).

End MainGo.

(** ** Revision [unnamed/part_001] *)
Module Part001.

Definition bufferSize : Z := 64 * 1024 * 1024.

Definition fixedHeaders : list (string * string) :=
  [ ("Host", "www.xxx.com");
    ("User-Agent", userAgent);
    ("Referer", "https://www.xxx.com/") ].

(** [bufferPool]: only the [sync.Pool]; [newSize] is the size its [New]
    allocates. *)
Record bufferPool := mkBufferPool {
  pool : list Buffer;
  newSize : Z
}.

Definition newBufferPool (size : Z) : bufferPool :=
  {| pool := []; newSize := size |}.

Definition Get (pick : option nat) (b : bufferPool) : Buffer * bufferPool :=
  let '(buf, items) := sync.Pool_Get pick (make_bytes (newSize b)) (pool b) in
  (buf, {| pool := items; newSize := newSize b |}).

Definition Put (buf : Buffer) (b : bufferPool) : bufferPool :=
  if bufferSize <=? buf_cap buf
  then {| pool := sync.Pool_Put (reslice buf bufferSize) (pool b);
          newSize := newSize b |}
  else b.

(** [isChunked] *)
Fixpoint isChunked (encodings : list string) : bool :=
  match encodings with
  | [] => false
  | e :: rest => if String.eqb e "chunked" then true else isChunked rest
  end.

(** As in [main.go], except that [req.URL.Path] is assigned before the
    log line is printed, so the line shows the new path twice. *)
Definition Director (routes : gmap string string) (req : Request)
  : Request * list Event :=
  let '(mappedPath, remainingPath, exists_) :=
    findRoute routes (url_Path (req_URL req)) in
  if negb exists_ then
    ({| req_Method := req_Method req; req_URL := req_URL req;
        req_Host := req_Host req;
        req_Header := Header_Set (req_Header req) "X-Proxy-Invalid" "1";
        req_RemoteAddr := req_RemoteAddr req |}, [])
  else
    let newPath := filepath.Join ["/"; mappedPath; remainingPath] in
    let header := setFixedHeaders fixedHeaders (req_Header req) in
    let header := Header_Del header "Accept-Encoding" in
    let header := Header_Del header "If-Modified-Since" in
    ({| req_Method := req_Method req;
        req_URL := {| url_Scheme := url_Scheme target;
                      url_Host := url_Host target;
                      url_Path := newPath |};
        req_Host := url_Host target;
        req_Header := header;
        req_RemoteAddr := req_RemoteAddr req |},
     [EvLog (LogForward newPath newPath)]).

(** [ModifyResponse]; always returns the nil error. *)
Definition ModifyResponse (resp : Response) : Response * list Event :=
  let contentType := Header_Get (resp_Header resp) "Content-Type" in
  let isVideo :=
    String.eqb contentType "video/mp4"
    || String.eqb contentType "video/webm"
    || String.eqb contentType "application/octet-stream" in
  let '(header, transferEncoding, tr) :=
    if isVideo || (1024 * 1024 <=? resp_ContentLength resp) then
      if negb (isChunked (resp_TransferEncoding resp)) then
        (Header_Del (resp_Header resp) "Content-Length",
         ["chunked"],
         [EvLog (LogChunked (url_Path (req_URL (resp_Request resp)))
                   contentType (resp_ContentLength resp))])
      else (resp_Header resp, resp_TransferEncoding resp, [])
    else (resp_Header resp, resp_TransferEncoding resp, []) in
  ({| resp_StatusCode := resp_StatusCode resp;
      resp_Header := Header_Set header "Access-Control-Allow-Origin" "*";
      resp_ContentLength := resp_ContentLength resp;
      resp_TransferEncoding := transferEncoding;
      resp_Request := resp_Request resp |},
   tr ++ [EvLog (LogResponse (req_Method (resp_Request resp))
                   (resp_StatusCode resp)
                   (url_Path (req_URL (resp_Request resp))))]).

(** Same text as the handler of [main.go]. *)
Definition handler (RoundTrip : Request → error + Response)
    (routes : gmap string string) (r : Request) : Reply * list Event :=
  if String.eqb (Header_Get (req_Header r) "X-Proxy-Invalid") "1" then
    (ReplyNotFound, [EvLog (Log404 (req_Method r) (url_Path (req_URL r)))])
  else
    let '(reply, tr) :=
      ServeHTTP RoundTrip (Director routes) ModifyResponse r in
    (reply,
     tr ++ [EvLog (LogRequest (req_Method r) (url_Path (req_URL r))
                     (req_RemoteAddr r))]).

End Part001.

(** ** Revision [unnamed/part_002] *)
Module Part002.

Definition bufferSize : Z := 64 * 1024 * 1024.

Definition fixedHeaders : list (string * string) :=
  [ ("Host", "www.xxx.com");
    ("User-Agent", userAgent);
    ("Referer", "https://www.xxx.com") ].

(** The buffer pool and [isChunked] have the text of [unnamed/part_001]. *)
Definition newBufferPool := Part001.newBufferPool.
Definition Get := Part001.Get.
Definition Put := Part001.Put.
Definition isChunked := Part001.isChunked.

(** On a miss the request is returned untouched. *)
Definition Director (routes : gmap string string) (req : Request)
  : Request * list Event :=
  let '(mappedPath, remainingPath, exists_) :=
    findRoute routes (url_Path (req_URL req)) in
  if negb exists_ then (req, [])
  else
    let newPath := filepath.Join ["/"; mappedPath; remainingPath] in
    let header := setFixedHeaders fixedHeaders (req_Header req) in
    let header := Header_Del header "Accept-Encoding" in
    let header := Header_Del header "If-Modified-Since" in
    ({| req_Method := req_Method req;
        req_URL := {| url_Scheme := url_Scheme target;
                      url_Host := url_Host target;
                      url_Path := newPath |};
        req_Host := url_Host target;
        req_Header := header;
        req_RemoteAddr := req_RemoteAddr req |},
     [EvLog (LogForward newPath newPath)]).

(** [ModifyResponse] has the text of [unnamed/part_001] (the log lines
    are in English). *)
Definition ModifyResponse := Part001.ModifyResponse.

(** The handler looks the route up itself; [routes] is the table at that
    moment, [routes'] the table when the Director looks it up again. *)
Definition handler (RoundTrip : Request → error + Response)
    (routes routes' : gmap string string) (r : Request) : Reply * list Event :=
  let '(_, _, exists_) := findRoute routes (url_Path (req_URL r)) in
  if negb exists_ then
    (ReplyNotFound, [EvLog (Log404 (req_Method r) (url_Path (req_URL r)))])
  else
    let '(reply, tr) :=
      ServeHTTP RoundTrip (Director routes') ModifyResponse r in
    (reply,
     tr ++ [EvLog (LogRequest (req_Method r) (url_Path (req_URL r))
                     (req_RemoteAddr r))]).

End Part002.

(** ** The chunked-transfer trigger in the words of the specification

    "the declared Content-Type is one of video/mp4, video/webm,
    application/octet-stream, or the declared content length is at least
    1 MiB, and the response is not already chunked". *)
Module ShaperSpec.

Definition streaming_media (contentType : string) : bool :=
  bool_decide (contentType ∈ ["video/mp4"; "video/webm"; "application/octet-stream"]).

Definition already_chunked (resp : Response) : bool :=
  bool_decide ("chunked" ∈ resp_TransferEncoding resp).

Definition must_chunk (resp : Response) : bool :=
  (streaming_media (Header_Get (resp_Header resp) "Content-Type")
   || bool_decide (1024 * 1024 ≤ resp_ContentLength resp))
  && negb (already_chunked resp).

End ShaperSpec.

(** ** Pool bookkeeping used in the statements *)

(** Whether [Pool.Get] with this choice hands out a pooled item (rather than
    a fresh [New()]). *)
Definition took_pooled (pick : option nat) (items : list Buffer) : bool :=
  match pick with
  | Some i => bool_decide (i < length items)%nat
  | None => false
  end.

(** Every pooled buffer of [main.go] is a slice of exactly [size] bytes with
    capacity [size]. *)
Definition MainGo_pool_wf (b : MainGo.bufferPool) : Prop :=
  Forall (λ x, x = make_bytes (MainGo.size b)) (MainGo.pool b).

(** The pool of [unnamed/part_001] and [unnamed/part_002] is created with
    [newBufferPool(bufferSize)]; every pooled buffer has length [bufferSize]
    and at least that capacity. *)
Definition Part001_pool_wf (b : Part001.bufferPool) : Prop :=
  Part001.newSize b = Part001.bufferSize
  ∧ Forall (λ x, buf_len x = Part001.bufferSize
                 ∧ Part001.bufferSize ≤ buf_cap x) (Part001.pool b).

(** A path element that [Clean] keeps: not empty, no separator inside. *)
Definition good_element (e : string) : Prop :=
  e ≠ "" ∧ PathSpec.slash_free e = true.

(** ** The Director's contract on a matched request, in the words of the
    specification: upstream scheme and host, the joined and normalized path,
    the three fixed headers, the two removed headers. *)
Definition rewritten_for (referer mappedPath remainingPath : string)
    (out : Request) : Prop :=
  url_Scheme (req_URL out) = "https"
  ∧ url_Host (req_URL out) = "www.xxx.com"
  ∧ req_Host out = "www.xxx.com"
  ∧ url_Path (req_URL out) = filepath.Join ["/"; mappedPath; remainingPath]
  ∧ PathSpec.normalized (url_Path (req_URL out)) = true
  ∧ req_Header out !! "Host" = Some ["www.xxx.com"]
  ∧ req_Header out !! "User-Agent" = Some [userAgent]
  ∧ req_Header out !! "Referer" = Some [referer]
  ∧ req_Header out !! "Accept-Encoding" = None
  ∧ req_Header out !! "If-Modified-Since" = None.


(** ** Further definitions: start-up, pool histories, path elements *)

Definition is_stat (e : Event) : bool :=
  match e with EvStat _ => true | _ => false end.

(** The start of [main]: the initial [loadRoutes] on the zero globals.  An
    error is printed and [log.Fatalf] ends the process; otherwise the
    reloader is started and the server set up with the loaded table. *)
Inductive Startup :=
| Fatal (err : string) (tr : list Event)
| Started (g : Globals) (tr : list Event).

Definition main_initialLoad
    (json_Unmarshal : string → string + gmap string string)
    (fs : RouteSource) : Startup :=
  match loadRoutes json_Unmarshal fs zeroGlobals with
  | (Some err, _, tr) => Fatal err tr
  | (None, g, tr) => Started g tr
  end.

(** What happens to the buffer pool of [main.go], one critical section at
    a time: [Get], [Put], the idle timer firing (it is no longer pending),
    and [cleanup] running once it has the mutex. *)
Inductive PoolOp :=
| OpGet (pick : option nat)
| OpPut (buf : Buffer)
| OpTimerFires
| OpCleanup (picks : nat → option nat).

Definition MainGo_poolStep (b : MainGo.bufferPool) (op : PoolOp)
  : MainGo.bufferPool :=
  match op with
  | OpGet pick => (MainGo.Get pick b).2
  | OpPut buf => MainGo.Put buf b
  | OpTimerFires =>
      {| MainGo.pool := MainGo.pool b; MainGo.size := MainGo.size b;
         MainGo.idleTimerArmed := false; MainGo.active := MainGo.active b |}
  | OpCleanup picks => (MainGo.cleanup picks b).1
  end.

Definition MainGo_poolRun (ops : list PoolOp) (b : MainGo.bufferPool)
  : MainGo.bufferPool :=
  foldl MainGo_poolStep b ops.

(** A use of the pool of [unnamed/part_001] and [unnamed/part_002]. *)
Inductive PlainPoolOp :=
| PGet (pick : option nat)
| PPut (buf : Buffer).

Definition Part001_poolStep (b : Part001.bufferPool) (op : PlainPoolOp)
  : Part001.bufferPool :=
  match op with
  | PGet pick => (Part001.Get pick b).2
  | PPut buf => Part001.Put buf b
  end.

Definition Part001_poolRun (ops : list PlainPoolOp) (b : Part001.bufferPool)
  : Part001.bufferPool :=
  foldl Part001_poolStep b ops.

(** [n] requests in flight at once on the pool of [main.go]: [n] times
    [Get], then every buffer handed out is [Put] back. *)
Fixpoint MainGo_acquireAll (picks : list (option nat)) (b : MainGo.bufferPool)
  : list Buffer * MainGo.bufferPool :=
  match picks with
  | [] => ([], b)
  | pick :: picks' =>
      let '(buf, b1) := MainGo.Get pick b in
      let '(bufs, b2) := MainGo_acquireAll picks' b1 in
      (buf :: bufs, b2)
  end.

Definition MainGo_releaseAll (bufs : list Buffer) (b : MainGo.bufferPool)
  : MainGo.bufferPool :=
  foldl (λ b buf, MainGo.Put buf b) b bufs.

(** A path element that survives [Clean] in a rooted path: not empty, not
    [.] or [..], no separator inside. *)
Definition clean_element (e : string) : Prop :=
  e ≠ "" ∧ e ≠ "." ∧ e ≠ ".." ∧ PathSpec.slash_free e = true.

(** The five header names the Director writes or deletes. *)
Definition director_keys : list string :=
  ["Host"; "User-Agent"; "Referer"; "Accept-Encoding"; "If-Modified-Since"].

Definition is_chunk_log (e : Event) : bool :=
  match e with EvLog (LogChunked _ _ _) => true | _ => false end.
Example findRoute_media :
  findRoute {[ "media" := "cdn/media" ]} "/media/video.mp4"
  = ("cdn/media", "video.mp4", true).
Proof. vm_compute. reflexivity. Qed.

Example findRoute_unknown :
  findRoute {[ "media" := "cdn/media" ]} "/unknown/x" = ("", "", false).
Proof. vm_compute. reflexivity. Qed.

(** *** The spec-side functions do cut at the first separator *)

Lemma upto_slash_free s : PathSpec.slash_free (PathSpec.upto_slash s) = true.
Proof.
  induction s as [|c s IH]; simpl; [done|].
  destruct (Ascii.eqb c "/") eqn:E; simpl; [done|]. by rewrite E.
Qed.

Lemma cut_at_first_slash s :
  s = PathSpec.upto_slash s
      +:+ match PathSpec.after_slash s with
          | Some r => String "/" r
          | None => ""
          end.
Proof.
  induction s as [|c s IH]; simpl; [done|].
  destruct (Ascii.eqb c "/") eqn:E; simpl.
  - apply Ascii.eqb_eq in E. by subst.
  - change (String c s = String c (PathSpec.upto_slash s +:+
      match PathSpec.after_slash s with Some r => String "/" r | None => "" end)).
    f_equal. exact IH.
Qed.

(** *** [strings] lemmas for the separator ["/"] *)

Lemma TrimPrefix_slash p :
  strings.TrimPrefix p "/" = PathSpec.strip_leading_slash p.
Proof.
  unfold strings.TrimPrefix. destruct p as [|c p]; simpl; [done|].
  destruct (Ascii.eqb c "/") eqn:E.
  - apply Ascii.eqb_eq in E. by subst.
  - apply Ascii.eqb_neq in E.
    destruct c as [[] [] [] [] [] [] [] []]; try done.
Qed.

Lemma Index_slash s :
  strings.Index s "/"
  = match PathSpec.after_slash s with
    | Some _ => Some (String.length (PathSpec.upto_slash s))
    | None => None
    end.
Proof.
  induction s as [|c s IH]; simpl; [done|].
  destruct (Ascii.eqb c "/"); simpl; [done|].
  rewrite IH. by destruct (PathSpec.after_slash s).
Qed.

Lemma take_upto_slash s :
  strings.take (String.length (PathSpec.upto_slash s)) s = PathSpec.upto_slash s.
Proof.
  induction s as [|c s IH]; simpl; [done|].
  destruct (Ascii.eqb c "/"); simpl; [done|]. by rewrite IH.
Qed.

Lemma drop_after_slash s r :
  PathSpec.after_slash s = Some r →
  strings.drop (String.length (PathSpec.upto_slash s) + 1) s = r.
Proof.
  induction s as [|c s IH]; simpl; [done|].
  destruct (Ascii.eqb c "/"); simpl.
  - by intros [= ->].
  - intros H. by apply IH.
Qed.

Lemma upto_slash_all s :
  PathSpec.after_slash s = None → PathSpec.upto_slash s = s.
Proof.
  induction s as [|c s IH]; simpl; [done|].
  destruct (Ascii.eqb c "/"); [done|]. intros H. by rewrite IH.
Qed.

Lemma SplitN_slash_2 s :
  strings.SplitN s "/" 2
  = match PathSpec.after_slash s with
    | Some r => [PathSpec.upto_slash s; r]
    | None => [PathSpec.upto_slash s]
    end.
Proof.
  unfold strings.SplitN.
  destruct s as [|c s].
  - reflexivity.
  - assert (Nat.min 2 (String.length (String c s) + 1) - 1 = 1)%nat as ->
      by (change (String.length (String c s)) with (S (String.length s)); lia).
    unfold strings.splitLoop. rewrite Index_slash.
    destruct (PathSpec.after_slash (String c s)) as [r|] eqn:E.
    + rewrite take_upto_slash.
      change (String.length "/") with 1%nat.
      by rewrite (drop_after_slash _ _ E).
    + by rewrite (upto_slash_all _ E).
Qed.

(** [findRoute] is the map lookup of the first segment. *)
Lemma findRoute_unfold routes p :
  findRoute routes p
  = match routes !! PathSpec.first_segment p with
    | Some route => (route, PathSpec.remainder p, true)
    | None => ("", "", false)
    end.
Proof.
  unfold findRoute, PathSpec.first_segment, PathSpec.remainder.
  rewrite TrimPrefix_slash, SplitN_slash_2.
  by destruct (PathSpec.after_slash (PathSpec.strip_leading_slash p)).
Qed.

(** C5 (as amended). For every path [p], [findRoute] reports found exactly
    when the first segment of [p] (one leading ['/'] stripped, compared byte
    for byte) is a key of the active table; when found, the returned route is
    the table's entry for that segment and the returned remainder is
    everything after the separator that follows the segment, or the empty
    string if there is none; on a miss the returned route and remainder are
    both the empty string. *)
Theorem C5_findRoute_first_segment (routes : gmap string string) (p : string) :
  ((findRoute routes p).2 = true ↔ PathSpec.first_segment p ∈ dom routes)
  ∧ ((findRoute routes p).2 = true →
       routes !! PathSpec.first_segment p = Some (findRoute routes p).1.1
       ∧ (findRoute routes p).1.2 = PathSpec.remainder p)
  ∧ ((findRoute routes p).2 = false → findRoute routes p = ("", "", false)).
Proof.
  rewrite findRoute_unfold, elem_of_dom.
  destruct (routes !! PathSpec.first_segment p) as [route|] eqn:E; simpl.
  - split_and!; [|done|done]. split; [by eauto|done].
  - split_and!; [|done|done]. split; [done|]. by intros [? ?].
Qed.

Lemma C5_findRoute_witness :
  let routes : gmap string string := {[ "media" := "cdn/media" ]} in
  (findRoute routes "/media/video.mp4").1.2 = "video.mp4"
  ∧ findRoute routes "/other/x" = ("", "", false).
Proof.
  intros routes.
  destruct (C5_findRoute_first_segment routes "/media/video.mp4") as (_ & H & _).
  destruct (C5_findRoute_first_segment routes "/other/x") as (_ & _ & H').
  split; [|exact (H' eq_refl)].
  destruct (H eq_refl) as [_ ->]. reflexivity.
Defined.

(** The claim as stated, for every path, fails on a miss: the path
    [/unknown/x] has ["x"] after the separator that follows its first
    segment, and the lookup returns the empty remainder. *)
Lemma C5_remainder_on_miss_counterexample :
  PathSpec.first_segment "/unknown/x" = "unknown"
  ∧ PathSpec.remainder "/unknown/x" = "x"
  ∧ findRoute {[ "media" := "cdn/media" ]} "/unknown/x" = ("", "", false)
  ∧ (findRoute {[ "media" := "cdn/media" ]} "/unknown/x").1.2
    ≠ PathSpec.remainder "/unknown/x".
Proof. vm_compute. split_and!; done. Qed.

(** The match is case-sensitive: ["Media"] is not ["media"]. *)
Example findRoute_case_sensitive :
  findRoute {[ "media" := "cdn/media" ]} "/Media/video.mp4" = ("", "", false).
Proof. vm_compute. reflexivity. Qed.

(** Only one leading separator is stripped. *)
Example findRoute_double_slash :
  findRoute {[ "media" := "cdn/media" ]} "//media/video.mp4" = ("", "", false)
  ∧ PathSpec.first_segment "//media/video.mp4" = "".
Proof. vm_compute. done. Qed.

(** C10. For the paths ["/"] and [""] the first segment is the empty string:
    the lookup reports found, with the empty remainder and the route stored
    under the empty key, exactly when the empty string is a key of the table,
    and reports a miss otherwise, whatever other routes the table holds. *)
Theorem C10_findRoute_root_paths (routes : gmap string string) :
  PathSpec.first_segment "/" = "" ∧ PathSpec.first_segment "" = ""
  ∧ findRoute routes "/"
    = match routes !! "" with
      | Some route => (route, "", true)
      | None => ("", "", false)
      end
  ∧ findRoute routes ""
    = match routes !! "" with
      | Some route => (route, "", true)
      | None => ("", "", false)
      end
  ∧ ((findRoute routes "/").2 = true ↔ "" ∈ dom routes)
  ∧ ((findRoute routes "").2 = true ↔ "" ∈ dom routes).
Proof.
  rewrite !findRoute_unfold, elem_of_dom.
  change (PathSpec.first_segment "/") with "".
  change (PathSpec.first_segment "") with "".
  change (PathSpec.remainder "/") with "".
  change (PathSpec.remainder "") with "".
  destruct (routes !! "") as [route|]; simpl; split_and!; try done;
    split; try done; first [by eauto | by intros [? ?]].
Qed.

Lemma C10_findRoute_root_witness :
  let routes : gmap string string := <[ "" := "home" ]> {[ "media" := "cdn/media" ]} in
  findRoute routes "/" = ("home", "", true)
  ∧ ((findRoute routes "").2 = true ↔ "" ∈ dom routes).
Proof.
  intros routes.
  destruct (C10_findRoute_root_paths routes) as (_ & _ & H1 & _ & _ & H2).
  split; [rewrite H1; reflexivity|exact H2].
Defined.

Example findRoute_root_other_routes :
  findRoute {[ "media" := "cdn/media" ]} "/" = ("", "", false)
  ∧ findRoute (<[ "" := "home" ]> {[ "media" := "cdn/media" ]}) "/"
    = ("home", "", true).
Proof. vm_compute. done. Qed.

(** ** Route reload *)

Section ReloadFacts.

Variable json_Unmarshal : string → error + gmap string string.

(** An error comes from exactly one of the three failing steps. *)
Lemma loadRoutes_error_cases fs g err :
  (loadRoutes json_Unmarshal fs g).1.1 = Some err ↔
  src_Stat fs = inl err
  ∨ (∃ m, src_Stat fs = inr m ∧ After m (lastMod g) = true
          ∧ src_ReadFile fs = inl err)
  ∨ (∃ m data, src_Stat fs = inr m ∧ After m (lastMod g) = true
          ∧ src_ReadFile fs = inr data ∧ json_Unmarshal data = inl err).
Proof.
  unfold loadRoutes.
  destruct (src_Stat fs) as [e|m] eqn:Es; simpl.
  { split; [intros [= ->]; by left|].
    intros [[= ->]|[(? & [=] & _)|(? & ? & [=] & _)]]; done. }
  destruct (After m (lastMod g)) eqn:Ea; simpl.
  2:{ split; [done|].
      intros [[=]|[(? & [= <-] & ? & _)|(? & ? & [= <-] & ? & _)]]; congruence. }
  destruct (src_ReadFile fs) as [e|data] eqn:Er; simpl.
  { split.
    - intros [= ->]. right; left. eauto.
    - intros [[=]|[(? & _ & _ & [= ->])|(? & ? & _ & _ & [=] & _)]]; done. }
  destruct (json_Unmarshal data) as [e|cfg] eqn:Ej; simpl.
  - split.
    + intros [= ->]. right; right. eauto 10.
    + intros [[=]|[(? & _ & _ & [=])|(? & ? & _ & _ & [= <-] & ?)]]; congruence.
  - split; [done|].
    intros [[=]|[(? & _ & _ & [=])|(? & ? & _ & _ & [= <-] & ?)]]; congruence.
Qed.

Lemma loadRoutes_error_keeps_globals fs g :
  (loadRoutes json_Unmarshal fs g).1.1 ≠ None →
  (loadRoutes json_Unmarshal fs g).1.2 = g.
Proof.
  unfold loadRoutes.
  destruct (src_Stat fs) as [e|m]; simpl; [done|].
  destruct (After m (lastMod g)); simpl; [|done].
  destruct (src_ReadFile fs) as [e|data]; simpl; [done|].
  destruct (json_Unmarshal data) as [e|cfg]; simpl; done.
Qed.

(** The mtime check: nothing but the [Stat] happens. *)
Lemma loadRoutes_not_after fs g m :
  src_Stat fs = inr m → After m (lastMod g) = false →
  loadRoutes json_Unmarshal fs g = (None, g, [EvStat routesFilePath]).
Proof. intros Hs Ha. unfold loadRoutes. by rewrite Hs, Ha. Qed.

Lemma loadRoutes_success fs g m data cfg :
  src_Stat fs = inr m → After m (lastMod g) = true →
  src_ReadFile fs = inr data → json_Unmarshal data = inr cfg →
  loadRoutes json_Unmarshal fs g
  = (None, {| routes := cfg; lastMod := m |},
     [EvStat routesFilePath; EvReadFile routesFilePath; EvUnmarshal data;
      EvLog (LogRoutesReloaded (size cfg))]).
Proof. intros Hs Ha Hr Hj. unfold loadRoutes. by rewrite Hs, Ha, Hr, Hj. Qed.

Lemma After_irrefl m : After m m = false.
Proof. unfold After. apply Z.ltb_irrefl. Qed.

End ReloadFacts.

(** C4. When a reload fails (the stat fails, the read fails, or the document
    does not decode), the active table and the recorded modification time are
    exactly what they were before the attempt, so every lookup gives the
    same result as before. *)
Theorem C4_failed_reload_keeps_table
    (json_Unmarshal : string → error + gmap string string)
    (fs : RouteSource) (g : Globals) (err : error) :
  (loadRoutes json_Unmarshal fs g).1.1 = Some err →
  (loadRoutes json_Unmarshal fs g).1.2 = g
  ∧ routes (loadRoutes json_Unmarshal fs g).1.2 = routes g
  ∧ lastMod (loadRoutes json_Unmarshal fs g).1.2 = lastMod g
  ∧ ∀ p, findRoute (routes (loadRoutes json_Unmarshal fs g).1.2) p
         = findRoute (routes g) p.
Proof.
  intros H.
  assert ((loadRoutes json_Unmarshal fs g).1.2 = g) as ->; [|done].
  apply loadRoutes_error_keeps_globals. by rewrite H.
Qed.

(** A malformed document on a table that routes ["media"]. *)
Lemma C4_failed_reload_witness :
  let g := {| routes := {[ "media" := "cdn/media" ]}; lastMod := 100 |} in
  let fs := {| src_Stat := inr 200; src_ReadFile := inr "{" |} in
  (loadRoutes sample_Unmarshal fs g).1.1 = Some "invalid character"
  ∧ (loadRoutes sample_Unmarshal fs g).1.2 = g
  ∧ findRoute (routes (loadRoutes sample_Unmarshal fs g).1.2) "/media/a"
    = ("cdn/media", "a", true).
Proof.
  intros g fs.
  destruct (C4_failed_reload_keeps_table sample_Unmarshal fs g
              "invalid character" eq_refl) as (H1 & _ & _ & H4).
  split; [reflexivity|]. split; [exact H1|].
  rewrite H4. vm_compute. reflexivity.
Defined.

(** A failure inside the reloader loop is logged and the table stays. *)
Lemma routeReloader_failed_tick json_Unmarshal fs g err :
  (loadRoutes json_Unmarshal fs g).1.1 = Some err →
  (routeReloader json_Unmarshal [fs] g).1 = g
  ∧ last (routeReloader json_Unmarshal [fs] g).2 = Some (EvLog (LogReloadFailed err)).
Proof.
  intros H. pose proof (loadRoutes_error_keeps_globals json_Unmarshal fs g) as K.
  simpl. destruct (loadRoutes json_Unmarshal fs g) as [[e g1] tr].
  simpl in *. subst e. rewrite K by done. split; [done|].
  rewrite app_nil_r. apply last_snoc.
Qed.

(** C8. A reload whose source has a modification time that is not after the
    one recorded at the last successful load is a no-op: the file is neither
    read nor decoded and the globals are unchanged.  Hence two reload cycles
    that see the same modification time decode the file exactly once: the
    first one swaps the table in, the second one only stats the file. *)
Theorem C8_unchanged_mtime_is_noop
    (json_Unmarshal : string → error + gmap string string)
    (fs1 fs2 : RouteSource) (g : Globals) (m : Z) (data : string)
    (cfg : gmap string string) :
  src_Stat fs1 = inr m → src_Stat fs2 = inr m →
  After m (lastMod g) = true →
  src_ReadFile fs1 = inr data → json_Unmarshal data = inr cfg →
  let g1 := (loadRoutes json_Unmarshal fs1 g).1.2 in
  lastMod g1 = m
  ∧ loadRoutes json_Unmarshal fs2 g1 = (None, g1, [EvStat routesFilePath])
  ∧ (∀ g', After m (lastMod g') = false →
           loadRoutes json_Unmarshal fs2 g' = (None, g', [EvStat routesFilePath]))
  ∧ (routeReloader json_Unmarshal [fs1; fs2] g).1 = g1
  ∧ count_events is_parse (routeReloader json_Unmarshal [fs1; fs2] g).2 = 1%nat
  ∧ count_events is_read (routeReloader json_Unmarshal [fs1; fs2] g).2 = 1%nat
  ∧ count_events is_reloaded (routeReloader json_Unmarshal [fs1; fs2] g).2 = 1%nat.
Proof.
  intros Hs1 Hs2 Ha Hr Hj g1.
  assert (Hnoop : ∀ g', After m (lastMod g') = false →
    loadRoutes json_Unmarshal fs2 g' = (None, g', [EvStat routesFilePath])).
  { intros g' Hg'. by apply loadRoutes_not_after with m. }
  pose proof (loadRoutes_success json_Unmarshal fs1 g m data cfg Hs1 Ha Hr Hj) as E1.
  assert (Hg1 : g1 = {| routes := cfg; lastMod := m |}) by (unfold g1; by rewrite E1).
  assert (Hm : lastMod g1 = m) by (by rewrite Hg1).
  assert (E2 : loadRoutes json_Unmarshal fs2 g1 = (None, g1, [EvStat routesFilePath])).
  { apply Hnoop. rewrite Hm. apply After_irrefl. }
  split; [done|]. split; [done|]. split; [done|].
  cbn [routeReloader]. rewrite E1. rewrite <- Hg1. rewrite E2.
  by vm_compute.
Qed.

Lemma C8_unchanged_mtime_witness :
  let fs := {| src_Stat := inr 200; src_ReadFile := inr sample_routes_json |} in
  (routeReloader sample_Unmarshal [fs; fs] zeroGlobals).1
  = {| routes := {[ "media" := "cdn/media" ]}; lastMod := 200 |}
  ∧ count_events is_parse (routeReloader sample_Unmarshal [fs; fs] zeroGlobals).2
    = 1%nat.
Proof.
  intros fs.
  destruct (C8_unchanged_mtime_is_noop sample_Unmarshal fs fs zeroGlobals 200
              sample_routes_json {[ "media" := "cdn/media" ]}
              eq_refl eq_refl eq_refl eq_refl eq_refl)
    as (_ & _ & _ & H1 & H2 & _).
  split; [|exact H2]. rewrite H1. vm_compute. reflexivity.
Defined.

(** ** Headers *)

Lemma Header_Get_Set_eq (h : Header) key value :
  Header_Get (Header_Set h key value) key = value.
Proof. unfold Header_Get, Header_Set. by rewrite lookup_insert_eq. Qed.

Lemma Header_lookup_Set_eq (h : Header) key value :
  Header_Set h key value !! textproto.CanonicalMIMEHeaderKey key = Some [value].
Proof. unfold Header_Set. by rewrite lookup_insert_eq. Qed.

Lemma Header_lookup_Set_ne (h : Header) key value k :
  textproto.CanonicalMIMEHeaderKey key ≠ k →
  Header_Set h key value !! k = h !! k.
Proof. intros H. unfold Header_Set. by rewrite lookup_insert_ne. Qed.

Lemma Header_lookup_Del_eq (h : Header) key :
  Header_Del h key !! textproto.CanonicalMIMEHeaderKey key = None.
Proof. unfold Header_Del. by rewrite lookup_delete_eq. Qed.

Lemma Header_lookup_Del_ne (h : Header) key k :
  textproto.CanonicalMIMEHeaderKey key ≠ k →
  Header_Del h key !! k = h !! k.
Proof. intros H. unfold Header_Del. by rewrite lookup_delete_ne. Qed.

Lemma Header_Get_lookup (h h' : Header) key :
  h !! textproto.CanonicalMIMEHeaderKey key
  = h' !! textproto.CanonicalMIMEHeaderKey key →
  Header_Get h key = Header_Get h' key.
Proof. unfold Header_Get. by intros ->. Qed.

(** A client may spell a header name in any case; the lookup key is the
    canonical one. *)
Example canonical_keys :
  textproto.CanonicalMIMEHeaderKey "x-proxy-invalid" = "X-Proxy-Invalid"
  ∧ textproto.CanonicalMIMEHeaderKey "X-PROXY-INVALID" = "X-Proxy-Invalid"
  ∧ textproto.CanonicalMIMEHeaderKey "content-length" = "Content-Length"
  ∧ textproto.CanonicalMIMEHeaderKey "If-Modified-Since" = "If-Modified-Since"
  ∧ textproto.CanonicalMIMEHeaderKey "not a token" = "not a token".
Proof. vm_compute. done. Qed.

(** Evaluates the canonical form of every literal key in the goal. *)
Ltac canon_keys :=
  repeat match goal with
  | |- context [textproto.CanonicalMIMEHeaderKey ?k] =>
      let k' := eval vm_compute in (textproto.CanonicalMIMEHeaderKey k) in
      change (textproto.CanonicalMIMEHeaderKey k) with k'
  end.

(** ** The response shaper *)

(** C7. Whatever the upstream sent (another value, the same value, or no
    CORS header), the response that leaves the shaper of each revision
    carries exactly [Access-Control-Allow-Origin: *]. *)
Theorem C7_shaper_sets_cors (resp : Response) :
  Header_Get (resp_Header (MainGo.ModifyResponse resp).1)
    "Access-Control-Allow-Origin" = "*"
  ∧ resp_Header (MainGo.ModifyResponse resp).1
      !! "Access-Control-Allow-Origin" = Some ["*"]
  ∧ Header_Get (resp_Header (Part001.ModifyResponse resp).1)
      "Access-Control-Allow-Origin" = "*"
  ∧ resp_Header (Part001.ModifyResponse resp).1
      !! "Access-Control-Allow-Origin" = Some ["*"]
  ∧ Header_Get (resp_Header (Part002.ModifyResponse resp).1)
      "Access-Control-Allow-Origin" = "*"
  ∧ resp_Header (Part002.ModifyResponse resp).1
      !! "Access-Control-Allow-Origin" = Some ["*"].
Proof.
  unfold Part002.ModifyResponse, Part001.ModifyResponse, MainGo.ModifyResponse.
  repeat case_match; simpl;
    rewrite !Header_Get_Set_eq;
    repeat split;
    apply (Header_lookup_Set_eq _ "Access-Control-Allow-Origin").
Qed.

Example shaper_overrides_upstream_cors :
  let req := mkRequest "GET" (mkURL "https" "www.xxx.com" "/a") "www.xxx.com" ∅ "" in
  let resp := mkResponse 200
                {[ "Access-Control-Allow-Origin" := ["https://example.org"; "null"] ]}
                12 [] req in
  resp_Header (MainGo.ModifyResponse resp).1 !! "Access-Control-Allow-Origin"
    = Some ["*"]
  ∧ resp_Header (Part001.ModifyResponse resp).1 !! "Access-Control-Allow-Origin"
    = Some ["*"].
Proof. vm_compute. done. Qed.

Lemma isChunked_elem_of encodings :
  Part001.isChunked encodings = bool_decide ("chunked" ∈ encodings).
Proof.
  induction encodings as [|e rest IH]; cbn [Part001.isChunked].
  - symmetry. apply bool_decide_eq_false_2. by intros ?%elem_of_nil.
  - destruct (String.eqb e "chunked") eqn:E.
    + apply String.eqb_eq in E as ->. symmetry.
      apply bool_decide_eq_true_2. by left.
    + apply String.eqb_neq in E. rewrite IH.
      apply bool_decide_ext. rewrite elem_of_cons. intuition congruence.
Qed.

Lemma isVideo_streaming_media contentType :
  (String.eqb contentType "video/mp4"
   || String.eqb contentType "video/webm"
   || String.eqb contentType "application/octet-stream")%bool
  = ShaperSpec.streaming_media contentType.
Proof.
  unfold ShaperSpec.streaming_media.
  destruct (String.eqb contentType "video/mp4") eqn:E1;
    [apply String.eqb_eq in E1 as ->; done|].
  destruct (String.eqb contentType "video/webm") eqn:E2;
    [apply String.eqb_eq in E2 as ->; done|].
  destruct (String.eqb contentType "application/octet-stream") eqn:E3;
    [apply String.eqb_eq in E3 as ->; done|].
  apply String.eqb_neq in E1, E2, E3. cbn [orb]. symmetry.
  apply bool_decide_eq_false_2. rewrite !elem_of_cons, elem_of_nil. intuition congruence.
Qed.

(** The shaper of [unnamed/part_001] (and [unnamed/part_002]), with its
    condition in the words of the specification. *)
Lemma Part001_ModifyResponse_unfold resp :
  (Part001.ModifyResponse resp).1
  = {| resp_StatusCode := resp_StatusCode resp;
       resp_Header :=
         Header_Set
           (if ShaperSpec.must_chunk resp
            then Header_Del (resp_Header resp) "Content-Length"
            else resp_Header resp)
           "Access-Control-Allow-Origin" "*";
       resp_ContentLength := resp_ContentLength resp;
       resp_TransferEncoding :=
         if ShaperSpec.must_chunk resp then ["chunked"]
         else resp_TransferEncoding resp;
       resp_Request := resp_Request resp |}.
Proof.
  unfold Part001.ModifyResponse, ShaperSpec.must_chunk, ShaperSpec.already_chunked.
  rewrite isVideo_streaming_media, isChunked_elem_of.
  replace (1024 * 1024 <=? resp_ContentLength resp)
    with (bool_decide (1024 * 1024 ≤ resp_ContentLength resp)).
  2:{ destruct (Z.leb_spec (1024 * 1024) (resp_ContentLength resp));
      [by apply bool_decide_eq_true_2|apply bool_decide_eq_false_2; lia]. }
  destruct (_ || _)%bool; destruct (bool_decide ("chunked" ∈ _)); done.
Qed.

(** C2 (as amended). In the revisions whose shaper has the chunked policy
    ([unnamed/part_001] and [unnamed/part_002]): when the Content-Type is one
    of video/mp4, video/webm, application/octet-stream, or the content length
    is at least 1 MiB, and the response is not already chunked, the shaper
    removes the Content-Length header and sets the transfer encoding to
    exactly chunked; in every other case the Content-Length header and the
    transfer encoding stay as the upstream sent them.  The shaper of
    [main.go] has no such policy: it leaves both untouched for every
    response. *)
Theorem C2_chunked_policy_where_implemented (resp : Response) :
  (ShaperSpec.must_chunk resp = true →
     resp_Header (Part001.ModifyResponse resp).1 !! "Content-Length" = None
     ∧ resp_TransferEncoding (Part001.ModifyResponse resp).1 = ["chunked"]
     ∧ resp_Header (Part002.ModifyResponse resp).1 !! "Content-Length" = None
     ∧ resp_TransferEncoding (Part002.ModifyResponse resp).1 = ["chunked"])
  ∧ (ShaperSpec.must_chunk resp = false →
     resp_Header (Part001.ModifyResponse resp).1 !! "Content-Length"
       = resp_Header resp !! "Content-Length"
     ∧ resp_TransferEncoding (Part001.ModifyResponse resp).1
       = resp_TransferEncoding resp
     ∧ resp_Header (Part002.ModifyResponse resp).1 !! "Content-Length"
       = resp_Header resp !! "Content-Length"
     ∧ resp_TransferEncoding (Part002.ModifyResponse resp).1
       = resp_TransferEncoding resp)
  ∧ resp_Header (MainGo.ModifyResponse resp).1 !! "Content-Length"
    = resp_Header resp !! "Content-Length"
  ∧ resp_TransferEncoding (MainGo.ModifyResponse resp).1
    = resp_TransferEncoding resp.
Proof.
  unfold Part002.ModifyResponse. rewrite Part001_ModifyResponse_unfold.
  split_and!.
  - intros ->. simpl.
    rewrite Header_lookup_Set_ne by (by canon_keys).
    by rewrite (Header_lookup_Del_eq _ "Content-Length").
  - intros ->. simpl. by rewrite Header_lookup_Set_ne by (by canon_keys).
  - simpl. by rewrite Header_lookup_Set_ne by (by canon_keys).
  - done.
Qed.

(** The two examples of the specification: video/mp4 loses its
    Content-Length, text/plain of 500000 bytes keeps it. *)
Lemma C2_chunked_policy_witness :
  let req := mkRequest "GET" (mkURL "https" "www.xxx.com" "/cdn/media/a") "www.xxx.com" ∅ "" in
  let video := mkResponse 200
      {[ "Content-Type" := ["video/mp4"]; "Content-Length" := ["12"] ]} 12 [] req in
  let text := mkResponse 200
      {[ "Content-Type" := ["text/plain"]; "Content-Length" := ["500000"] ]}
      500000 [] req in
  (resp_Header (Part001.ModifyResponse video).1 !! "Content-Length" = None
   ∧ resp_TransferEncoding (Part001.ModifyResponse video).1 = ["chunked"])
  ∧ resp_Header (Part001.ModifyResponse text).1 !! "Content-Length"
    = Some ["500000"].
Proof.
  intros req video text. split.
  - destruct (C2_chunked_policy_where_implemented video) as [H _].
    destruct (H eq_refl) as (H1 & H2 & _). by split.
  - destruct (C2_chunked_policy_where_implemented text) as (_ & H & _).
    destruct (H eq_refl) as (H1 & _). rewrite H1. reflexivity.
Defined.

(** The claim as stated fails on [main.go]: a video/mp4 response that is
    not chunked leaves its shaper with Content-Length in place and the
    transfer encoding not set to chunked. *)
Lemma C2_main_shaper_counterexample :
  let req := mkRequest "GET" (mkURL "https" "www.xxx.com" "/cdn/media/a") "www.xxx.com" ∅ "" in
  let video := mkResponse 200
      {[ "Content-Type" := ["video/mp4"]; "Content-Length" := ["5000000"] ]}
      5000000 [] req in
  ShaperSpec.must_chunk video = true
  ∧ resp_Header (MainGo.ModifyResponse video).1 !! "Content-Length"
    = Some ["5000000"]
  ∧ resp_TransferEncoding (MainGo.ModifyResponse video).1 ≠ ["chunked"].
Proof. vm_compute. split_and!; done. Qed.

(** ** The handler *)

Lemma count_events_app f (a b : list Event) :
  count_events f (a ++ b) = (count_events f a + count_events f b)%nat.
Proof. unfold count_events. by rewrite filter_app, length_app. Qed.

Lemma count_events_cons f e (l : list Event) :
  count_events f (e :: l)
  = ((if f e then 1 else 0) + count_events f l)%nat.
Proof.
  unfold count_events. rewrite filter_cons.
  destruct (decide (f e = true)) as [->|H%not_true_is_false]; [done|].
  by rewrite H.
Qed.

Lemma count_events_nil f : count_events f [] = 0%nat.
Proof. done. Qed.

Section HandlerFacts.

Variable RoundTrip : Request → error + Response.

(** Once [proxy.ServeHTTP] is entered, the transport is called exactly
    once and the reply is never the handler's own 404. *)
Lemma ServeHTTP_dispatches Director ModifyResponse
    (Hd : ∀ req, count_events is_dispatch (Director req).2 = 0%nat)
    (Hm : ∀ res, count_events is_dispatch (ModifyResponse res).2 = 0%nat) req :
  (ServeHTTP RoundTrip Director ModifyResponse req).1 ≠ ReplyNotFound
  ∧ EvRoundTrip (Director req).1
      ∈ (ServeHTTP RoundTrip Director ModifyResponse req).2
  ∧ count_events is_dispatch
      (ServeHTTP RoundTrip Director ModifyResponse req).2 = 1%nat.
Proof.
  unfold ServeHTTP. specialize (Hd req).
  destruct (Director req) as [outreq tr1]. simpl in *.
  destruct (RoundTrip outreq) as [e|res]; simpl.
  - split; [done|]. split; [set_solver|].
    by rewrite count_events_app, count_events_cons, Hd.
  - specialize (Hm res). destruct (ModifyResponse res) as [res' tr2].
    simpl in *. split; [done|]. split; [set_solver|].
    by rewrite count_events_app, count_events_cons, Hd, Hm.
Qed.

Lemma MainGo_Director_no_dispatch routes req :
  count_events is_dispatch (MainGo.Director routes req).2 = 0%nat.
Proof.
  unfold MainGo.Director.
  destruct (findRoute routes _) as [[? ?] []]; done.
Qed.

Lemma Part001_Director_no_dispatch routes req :
  count_events is_dispatch (Part001.Director routes req).2 = 0%nat.
Proof.
  unfold Part001.Director.
  destruct (findRoute routes _) as [[? ?] []]; done.
Qed.

Lemma MainGo_ModifyResponse_no_dispatch res :
  count_events is_dispatch (MainGo.ModifyResponse res).2 = 0%nat.
Proof. done. Qed.

Lemma Part001_ModifyResponse_no_dispatch res :
  count_events is_dispatch (Part001.ModifyResponse res).2 = 0%nat.
Proof.
  unfold Part001.ModifyResponse. repeat case_match; simplify_eq; done.
Qed.

(** The handler of [main.go] and [unnamed/part_001] tests the marker on
    the inbound request, which the Director has not seen yet: a request
    without the marker goes to the proxy whether or not a route matches. *)
Lemma marker_handlers_pass_unmarked routes r :
  Header_Get (req_Header r) "X-Proxy-Invalid" ≠ "1" →
  (MainGo.handler RoundTrip routes r).1 ≠ ReplyNotFound
  ∧ count_events is_dispatch (MainGo.handler RoundTrip routes r).2 = 1%nat
  ∧ (Part001.handler RoundTrip routes r).1 ≠ ReplyNotFound
  ∧ count_events is_dispatch (Part001.handler RoundTrip routes r).2 = 1%nat.
Proof.
  intros H%String.eqb_neq.
  unfold MainGo.handler, Part001.handler. rewrite H.
  pose proof (ServeHTTP_dispatches (MainGo.Director routes)
    MainGo.ModifyResponse (MainGo_Director_no_dispatch routes)
    MainGo_ModifyResponse_no_dispatch r) as (A1 & _ & A2).
  pose proof (ServeHTTP_dispatches (Part001.Director routes)
    Part001.ModifyResponse (Part001_Director_no_dispatch routes)
    Part001_ModifyResponse_no_dispatch r) as (B1 & _ & B2).
  destruct (ServeHTTP RoundTrip (MainGo.Director routes) _ r) as [rep1 tr1].
  destruct (ServeHTTP RoundTrip (Part001.Director routes) _ r) as [rep2 tr2].
  simpl in *.
  rewrite !count_events_app, !count_events_cons, A2, B2. done.
Qed.

(** The handler of [unnamed/part_002] does what the claim C1 says: a
    request whose first segment is no key of the table gets the 404 and
    nothing else happens. *)
Lemma Part002_handler_rejects_unmatched routes routes' r :
  PathSpec.first_segment (url_Path (req_URL r)) ∉ dom routes →
  Part002.handler RoundTrip routes routes' r
  = (ReplyNotFound, [EvLog (Log404 (req_Method r) (url_Path (req_URL r)))]).
Proof.
  intros H. unfold Part002.handler. rewrite findRoute_unfold.
  apply not_elem_of_dom in H. by rewrite H.
Qed.

(** And the route check is its only way to a 404. *)
Lemma Part002_handler_passes_matched routes routes' r :
  PathSpec.first_segment (url_Path (req_URL r)) ∈ dom routes →
  (Part002.handler RoundTrip routes routes' r).1 ≠ ReplyNotFound.
Proof.
  intros [t H]%elem_of_dom. unfold Part002.handler.
  rewrite findRoute_unfold, H. simpl.
  unfold ServeHTTP. repeat case_match; simplify_eq; done.
Qed.

End HandlerFacts.

(** C1, at the failing input.  Table [{"media": "cdn/media"}], request
    [GET /unknown/x] without headers: the first segment is no key of the
    table, yet the handlers of [main.go] and [unnamed/part_001] do not answer
    404; they enter the proxy, whose Director marks only the outgoing copy and
    leaves its URL as it came, and that copy is handed to the transport.
    The handler of [unnamed/part_002] answers 404 at once. *)
Theorem C1_marker_handlers_dispatch_unmatched
    (RoundTrip : Request → error + Response) :
  let routes : gmap string string := {[ "media" := "cdn/media" ]} in
  let r := mkRequest "GET" (mkURL "" "" "/unknown/x") "localhost:8443" ∅
             "127.0.0.1:50000" in
  let marked := mkRequest "GET" (mkURL "" "" "/unknown/x") "localhost:8443"
                  {[ "X-Proxy-Invalid" := ["1"] ]} "127.0.0.1:50000" in
  (PathSpec.first_segment (url_Path (req_URL r)) ∉ dom routes)
  ∧ (MainGo.handler RoundTrip routes r).1 ≠ ReplyNotFound
  ∧ EvRoundTrip marked ∈ (MainGo.handler RoundTrip routes r).2
  ∧ count_events is_dispatch (MainGo.handler RoundTrip routes r).2 = 1%nat
  ∧ (Part001.handler RoundTrip routes r).1 ≠ ReplyNotFound
  ∧ EvRoundTrip marked ∈ (Part001.handler RoundTrip routes r).2
  ∧ count_events is_dispatch (Part001.handler RoundTrip routes r).2 = 1%nat
  ∧ Part002.handler RoundTrip routes routes r
    = (ReplyNotFound, [EvLog (Log404 "GET" "/unknown/x")]).
Proof.
  intros routes r marked.
  assert (Hkey : PathSpec.first_segment (url_Path (req_URL r)) ∉ dom routes).
  { unfold routes. rewrite dom_singleton_L. by intros [=]%elem_of_singleton. }
  assert (Hhdr : Header_Get (req_Header r) "X-Proxy-Invalid" ≠ "1") by done.
  destruct (marker_handlers_pass_unmarked RoundTrip routes r Hhdr)
    as (A1 & A2 & B1 & B2).
  assert (Hm : (MainGo.Director routes r).1 = marked) by (by vm_compute).
  assert (Hp : (Part001.Director routes r).1 = marked) by (by vm_compute).
  pose proof (Part002_handler_rejects_unmatched RoundTrip routes routes r Hkey)
    as H2.
  split_and!; try assumption.
  - unfold MainGo.handler.
    change (String.eqb (Header_Get (req_Header r) "X-Proxy-Invalid") "1") with false.
    pose proof (ServeHTTP_dispatches RoundTrip (MainGo.Director routes)
      MainGo.ModifyResponse (MainGo_Director_no_dispatch routes)
      MainGo_ModifyResponse_no_dispatch r) as (_ & H & _).
    rewrite Hm in H.
    destruct (ServeHTTP RoundTrip (MainGo.Director routes) _ r) as [rep tr].
    simpl in *. apply elem_of_app. by left.
  - unfold Part001.handler.
    change (String.eqb (Header_Get (req_Header r) "X-Proxy-Invalid") "1") with false.
    pose proof (ServeHTTP_dispatches RoundTrip (Part001.Director routes)
      Part001.ModifyResponse (Part001_Director_no_dispatch routes)
      Part001_ModifyResponse_no_dispatch r) as (_ & H & _).
    rewrite Hp in H.
    destruct (ServeHTTP RoundTrip (Part001.Director routes) _ r) as [rep tr].
    simpl in *. apply elem_of_app. by left.
Qed.

(** C9. In the revisions with the marker ([main.go], [unnamed/part_001]) a
    request that arrives with [X-Proxy-Invalid: 1] gets the handler's 404:
    the proxy is not entered, so no Director runs, no route is looked up and
    nothing is dispatched, whatever the route table holds. *)
Theorem C9_client_marker_forces_404
    (RoundTrip : Request → error + Response)
    (routes : gmap string string) (r : Request) :
  Header_Get (req_Header r) "X-Proxy-Invalid" = "1" →
  MainGo.handler RoundTrip routes r
  = (ReplyNotFound, [EvLog (Log404 (req_Method r) (url_Path (req_URL r)))])
  ∧ Part001.handler RoundTrip routes r
    = (ReplyNotFound, [EvLog (Log404 (req_Method r) (url_Path (req_URL r)))])
  ∧ count_events is_dispatch (MainGo.handler RoundTrip routes r).2 = 0%nat
  ∧ count_events is_dispatch (Part001.handler RoundTrip routes r).2 = 0%nat.
Proof.
  intros H. unfold MainGo.handler, Part001.handler. rewrite H. done.
Qed.

(** A request for a routed path, spelled with a lower-case header name. *)
Lemma C9_client_marker_witness :
  let routes : gmap string string := {[ "media" := "cdn/media" ]} in
  let r := mkRequest "GET" (mkURL "" "" "/media/video.mp4") "localhost:8443"
             {[ textproto.CanonicalMIMEHeaderKey "x-proxy-invalid" := ["1"] ]}
             "127.0.0.1:50000" in
  (findRoute routes (url_Path (req_URL r))).2 = true
  ∧ (MainGo.handler (λ _, inl "unused") routes r).1 = ReplyNotFound
  ∧ (Part001.handler (λ _, inl "unused") routes r).1 = ReplyNotFound.
Proof.
  intros routes r.
  destruct (C9_client_marker_forces_404 (λ _, inl "unused") routes r eq_refl)
    as (H1 & H2 & _).
  split; [vm_compute; reflexivity|].
  split; [by rewrite H1|by rewrite H2].
Defined.

(** ** The buffer pool *)

Lemma Pool_Get_length pick new items :
  length (sync.Pool_Get pick new items).2
  = if took_pooled pick items then (length items - 1)%nat else length items.
Proof.
  unfold sync.Pool_Get, took_pooled. destruct pick as [i|]; [|done].
  destruct (items !! i) as [x|] eqn:E; simpl.
  - apply lookup_lt_Some in E as Hlt.
    rewrite bool_decide_eq_true_2 by done.
    rewrite length_delete by eauto. done.
  - apply lookup_ge_None in E.
    rewrite bool_decide_eq_false_2 by lia. done.
Qed.

Lemma Pool_Get_item pick new items (P : Buffer → Prop) :
  P new → Forall P items →
  P (sync.Pool_Get pick new items).1 ∧ Forall P (sync.Pool_Get pick new items).2.
Proof.
  intros Hn Hi. unfold sync.Pool_Get. destruct pick as [i|]; [|done].
  destruct (items !! i) as [x|] eqn:E; simpl; [|done].
  split.
  - eapply Forall_lookup_1; eauto.
  - by apply Forall_delete.
Qed.

Lemma took_pooled_nil pick : took_pooled pick [] = false.
Proof.
  destruct pick as [i|]; [|done]. unfold took_pooled.
  apply bool_decide_eq_false_2. simpl. lia.
Qed.

(** The invariant of the pool of [main.go]. *)
Lemma MainGo_newBufferPool_wf size : MainGo_pool_wf (MainGo.newBufferPool size).
Proof. by apply Forall_nil. Qed.

Lemma MainGo_Get_wf pick b :
  MainGo_pool_wf b →
  (MainGo.Get pick b).1 = make_bytes (MainGo.size b)
  ∧ MainGo.size (MainGo.Get pick b).2 = MainGo.size b
  ∧ MainGo_pool_wf (MainGo.Get pick b).2.
Proof.
  intros H. unfold MainGo.Get, MainGo_pool_wf in *.
  pose proof (Pool_Get_item pick (make_bytes (MainGo.size b)) (MainGo.pool b)
                (λ x, x = make_bytes (MainGo.size b)) eq_refl H) as [H1 H2].
  by destruct (sync.Pool_Get _ _ _).
Qed.

Lemma MainGo_Put_wf buf b :
  MainGo_pool_wf b → MainGo_pool_wf (MainGo.Put buf b).
Proof.
  intros H. unfold MainGo.Put, MainGo_pool_wf in *. simpl.
  destruct (Z.eqb_spec (buf_cap buf) (MainGo.size b)) as [E|E]; [|done].
  apply Forall_cons. split; [|done].
  unfold reslice, make_bytes. by rewrite E.
Qed.

(** [acquire] hands out a buffer of exactly [size] bytes. *)
Lemma MainGo_Get_exact_size pick b :
  MainGo_pool_wf b →
  buf_len (MainGo.Get pick b).1 = MainGo.size b
  ∧ buf_cap (MainGo.Get pick b).1 = MainGo.size b.
Proof. intros H. by destruct (MainGo_Get_wf pick b H) as (-> & _). Qed.

Lemma MainGo_Get_pool_length pick b :
  length (MainGo.pool (MainGo.Get pick b).2)
  = if took_pooled pick (MainGo.pool b)
    then (length (MainGo.pool b) - 1)%nat else length (MainGo.pool b).
Proof.
  unfold MainGo.Get.
  pose proof (Pool_Get_length pick (make_bytes (MainGo.size b)) (MainGo.pool b)).
  by destruct (sync.Pool_Get _ _ _).
Qed.

Lemma MainGo_Put_pool buf b :
  MainGo.pool (MainGo.Put buf b)
  = if buf_cap buf =? MainGo.size b
    then reslice buf (MainGo.size b) :: MainGo.pool b
    else MainGo.pool b.
Proof. done. Qed.

(** The idle cleanup removes at most ten pooled buffers, and none while a
    buffer is handed out. *)
Lemma MainGo_drain_pool_length n picks b :
  (length (MainGo.pool b) - n ≤ length (MainGo.pool (MainGo.drain n picks b))
   ∧ length (MainGo.pool (MainGo.drain n picks b)) ≤ length (MainGo.pool b))%nat.
Proof.
  revert b. induction n as [|n IH]; intros b; cbn [MainGo.drain]; [lia|].
  pose proof (Pool_Get_length (picks n) (make_bytes (MainGo.size b))
                (MainGo.pool b)) as Hlen.
  destruct (sync.Pool_Get _ _ _) as [x items]. simpl in Hlen.
  specialize (IH {| MainGo.pool := items; MainGo.size := MainGo.size b;
                    MainGo.idleTimerArmed := MainGo.idleTimerArmed b;
                    MainGo.active := MainGo.active b |}).
  simpl in IH. destruct (took_pooled (picks n) (MainGo.pool b)); lia.
Qed.

Lemma MainGo_cleanup_bounded picks b :
  (length (MainGo.pool b) - 10
   ≤ length (MainGo.pool (MainGo.cleanup picks b).1))%nat
  ∧ (0 < MainGo.active b →
     MainGo.pool (MainGo.cleanup picks b).1 = MainGo.pool b
     ∧ (MainGo.cleanup picks b).2 = []).
Proof.
  unfold MainGo.cleanup.
  destruct (Z.leb_spec (MainGo.active b) 0) as [Hle|Hgt]; cbn [fst snd].
  - split; [|lia]. apply (MainGo_drain_pool_length 10 picks b).
  - split; [lia|done].
Qed.

(** The invariant of the pool of [unnamed/part_001]. *)
Lemma Part001_newBufferPool_wf :
  Part001_pool_wf (Part001.newBufferPool Part001.bufferSize).
Proof. split; [done|by apply Forall_nil]. Qed.

Lemma Part001_Get_wf pick b :
  Part001_pool_wf b →
  Part001.bufferSize ≤ buf_cap (Part001.Get pick b).1
  ∧ Part001_pool_wf (Part001.Get pick b).2.
Proof.
  intros [Hn H]. unfold Part001.Get, Part001_pool_wf in *.
  pose proof (Pool_Get_item pick (make_bytes (Part001.newSize b)) (Part001.pool b)
                (λ x, buf_len x = Part001.bufferSize
                      ∧ Part001.bufferSize ≤ buf_cap x)) as K.
  destruct K as [[_ H1] H2]; [by rewrite Hn|done|].
  by destruct (sync.Pool_Get _ _ _).
Qed.

Lemma Part001_Put_wf buf b :
  Part001_pool_wf b → Part001_pool_wf (Part001.Put buf b).
Proof.
  intros [Hn H]. unfold Part001.Put.
  destruct (Z.leb_spec Part001.bufferSize (buf_cap buf)) as [E|E]; [|done].
  split; [done|]. simpl. apply Forall_cons. by split.
Qed.

Lemma Part001_Get_pool_length pick b :
  length (Part001.pool (Part001.Get pick b).2)
  = if took_pooled pick (Part001.pool b)
    then (length (Part001.pool b) - 1)%nat else length (Part001.pool b).
Proof.
  unfold Part001.Get.
  pose proof (Pool_Get_length pick (make_bytes (Part001.newSize b)) (Part001.pool b)).
  by destruct (sync.Pool_Get _ _ _).
Qed.

Lemma took_pooled_pos pick (items : list Buffer) :
  took_pooled pick items = true → (0 < length items)%nat.
Proof.
  destruct pick as [i|]; [|done]. simpl. intros H%bool_decide_eq_true. lia.
Qed.

(** C3 (as amended). [acquire] followed by [release] of the acquired buffer
    brings the pooled-buffer count back to its value before [acquire] when
    [acquire] took its buffer from the pool; when it allocated a fresh one,
    as it always does on an empty pool, the count ends one above that value.
    In [main.go], [release] of a buffer whose capacity is not the pool's
    size leaves the pooled buffers as they are.  In [unnamed/part_001] and
    [unnamed/part_002], [release] drops a buffer only when its capacity is
    below [bufferSize]; a larger one is pooled as well. *)
Theorem C3_pool_count_after_release
    (b : MainGo.bufferPool) (b' : Part001.bufferPool)
    (pick : option nat) (buf : Buffer) :
  MainGo_pool_wf b → Part001_pool_wf b' →
  length (MainGo.pool (MainGo.Put (MainGo.Get pick b).1 (MainGo.Get pick b).2))
  = (if took_pooled pick (MainGo.pool b)
     then length (MainGo.pool b) else S (length (MainGo.pool b)))
  ∧ length (Part001.pool (Part001.Put (Part001.Get pick b').1 (Part001.Get pick b').2))
    = (if took_pooled pick (Part001.pool b')
       then length (Part001.pool b') else S (length (Part001.pool b')))
  ∧ (MainGo.pool b = [] →
     length (MainGo.pool (MainGo.Put (MainGo.Get pick b).1 (MainGo.Get pick b).2))
     = 1%nat)
  ∧ (buf_cap buf ≠ MainGo.size b → MainGo.pool (MainGo.Put buf b) = MainGo.pool b)
  ∧ (buf_cap buf < Part001.bufferSize → Part001.Put buf b' = b')
  ∧ (Part001.bufferSize ≤ buf_cap buf →
     length (Part001.pool (Part001.Put buf b')) = S (length (Part001.pool b'))).
Proof.
  intros Hwf Hwf'.
  assert (Hmain :
    length (MainGo.pool (MainGo.Put (MainGo.Get pick b).1 (MainGo.Get pick b).2))
    = if took_pooled pick (MainGo.pool b)
      then length (MainGo.pool b) else S (length (MainGo.pool b))).
  { destruct (MainGo_Get_wf pick b Hwf) as (Hbuf & Hsz & _).
    rewrite MainGo_Put_pool, Hbuf, Hsz. simpl. rewrite Z.eqb_refl. simpl.
    rewrite MainGo_Get_pool_length.
    destruct (took_pooled pick (MainGo.pool b)) eqn:E; [|done].
    apply took_pooled_pos in E. lia. }
  split_and!.
  - exact Hmain.
  - destruct (Part001_Get_wf pick b' Hwf') as (Hcap & _).
    unfold Part001.Put at 1.
    destruct (Z.leb_spec Part001.bufferSize (buf_cap (Part001.Get pick b').1));
      [|lia].
    simpl. rewrite Part001_Get_pool_length.
    destruct (took_pooled pick (Part001.pool b')) eqn:E; [|done].
    apply took_pooled_pos in E. lia.
  - intros Hnil. rewrite Hmain, Hnil. by rewrite took_pooled_nil.
  - intros Hne. rewrite MainGo_Put_pool.
    by destruct (Z.eqb_spec (buf_cap buf) (MainGo.size b)).
  - intros Hlt. unfold Part001.Put.
    destruct (Z.leb_spec Part001.bufferSize (buf_cap buf)); [lia|done].
  - intros Hge. unfold Part001.Put.
    destruct (Z.leb_spec Part001.bufferSize (buf_cap buf)); [done|lia].
Qed.

(** A pool holding one buffer, a reusing [acquire], and a stray small
    buffer. *)
Lemma C3_pool_count_witness :
  let b := MainGo.Put (make_bytes MainGo.bufferSize)
             (MainGo.Get None (MainGo.newBufferPool MainGo.bufferSize)).2 in
  let b' := Part001.newBufferPool Part001.bufferSize in
  length (MainGo.pool b) = 1%nat
  ∧ length (MainGo.pool (MainGo.Put (MainGo.Get (Some 0%nat) b).1
                                     (MainGo.Get (Some 0%nat) b).2)) = 1%nat
  ∧ MainGo.pool (MainGo.Put (make_bytes 4096) b) = MainGo.pool b.
Proof.
  intros b b'.
  assert (Hwf : MainGo_pool_wf b).
  { apply MainGo_Put_wf. apply MainGo_Get_wf. apply MainGo_newBufferPool_wf. }
  destruct (C3_pool_count_after_release b b' (Some 0%nat) (make_bytes 4096)
              Hwf Part001_newBufferPool_wf) as (H1 & _ & _ & H4 & _).
  split; [reflexivity|]. split; [exact H1|]. apply H4. vm_compute. discriminate.
Defined.

(** The claim as stated fails twice.  On an empty pool [acquire] allocates,
    so [release] raises the count from 0 to 1 (all revisions).  And the pool
    of [unnamed/part_001] keeps a buffer whose capacity is above its
    configured size. *)
Lemma C3_pool_count_counterexample :
  let b := MainGo.newBufferPool MainGo.bufferSize in
  let b' := Part001.newBufferPool Part001.bufferSize in
  let big := make_bytes (Part001.bufferSize + 1) in
  (length (MainGo.pool b) = 0%nat
   ∧ buf_cap (MainGo.Get None b).1 = MainGo.size b
   ∧ length (MainGo.pool (MainGo.Put (MainGo.Get None b).1 (MainGo.Get None b).2))
     ≠ length (MainGo.pool b))
  ∧ (buf_cap big ≠ Part001.newSize b'
     ∧ length (Part001.pool (Part001.Put big b')) ≠ length (Part001.pool b')).
Proof. vm_compute. split_and!; done. Qed.

(** ** [filepath.Clean] on a rooted path *)

Lemma elements_slash_free path :
  Forall (λ e, PathSpec.slash_free e = true) (filepath.elements path).
Proof.
  induction path as [|c path IH]; simpl.
  - by repeat constructor.
  - destruct (Ascii.eqb c "/") eqn:E.
    + by constructor.
    + destruct (filepath.elements path) as [|e es].
      * repeat constructor. simpl. by rewrite E.
      * inversion_clear IH as [|? ? He Hes]. constructor; [|done].
        simpl. by rewrite E, He.
Qed.

Lemma cleanStep_good rooted out dotdot e :
  PathSpec.slash_free e = true → Forall good_element out →
  Forall good_element (filepath.cleanStep rooted (out, dotdot) e).1.
Proof.
  intros He Hout. unfold filepath.cleanStep.
  destruct (String.eqb e "") eqn:E0; [done|].
  destruct (String.eqb e "."); [done|].
  destruct (String.eqb e "..").
  - destruct (dotdot <? length out)%nat; simpl.
    + destruct out; [done|]. by inversion Hout.
    + destruct rooted; simpl; [done|]. by constructor.
  - simpl. constructor; [|done]. split; [|done].
    by apply String.eqb_neq.
Qed.

Lemma foldl_cleanStep_good rooted es st :
  Forall (λ e, PathSpec.slash_free e = true) es → Forall good_element st.1 →
  Forall good_element (foldl (filepath.cleanStep rooted) st es).1.
Proof.
  revert st. induction es as [|e es IH]; intros [out dotdot] Hes Hst;
    [exact Hst|].
  inversion_clear Hes as [|? ? He Hes']. cbn [foldl].
  apply IH; [done|].
  exact (cleanStep_good rooted out dotdot e He Hst).
Qed.

Lemma string_app_empty_r (s : string) : s +:+ "" = s.
Proof.
  induction s as [|c s IH]; [done|].
  change (String c (s +:+ "") = String c s). by rewrite IH.
Qed.

Lemma slash_free_no_double e t :
  PathSpec.slash_free e = true → PathSpec.no_double_slash t = true →
  PathSpec.no_double_slash (e +:+ t) = true.
Proof.
  induction e as [|c e IH]; simpl; [done|].
  intros [Hc He]%andb_true_iff Ht. apply negb_true_iff in Hc.
  rewrite Hc. simpl. by apply IH.
Qed.

Lemma good_not_starts_with_slash e t :
  good_element e → PathSpec.starts_with_slash (e +:+ t) = false.
Proof.
  intros [Hne He]. destruct e as [|c e]; [done|]. simpl in *.
  apply andb_true_iff in He as [Hc _]. by apply negb_true_iff in Hc.
Qed.

Lemma slash_free_not_ends e :
  PathSpec.slash_free e = true → PathSpec.ends_with_slash e = false.
Proof.
  induction e as [|c e IH]; [done|]. simpl.
  intros [Hc He]%andb_true_iff. apply negb_true_iff in Hc.
  destruct e; [done|]. by apply IH.
Qed.

Lemma ends_with_slash_app e t :
  t ≠ "" → PathSpec.ends_with_slash (e +:+ t) = PathSpec.ends_with_slash t.
Proof.
  intros Ht. induction e as [|c e IH]; [done|].
  simpl. destruct (e +:+ t) eqn:E; [|done].
  destruct e; simpl in E; [done|discriminate].
Qed.

Lemma Join_good es :
  Forall good_element es → es ≠ [] →
  strings.Join es "/" ≠ ""
  ∧ PathSpec.starts_with_slash (strings.Join es "/") = false
  ∧ PathSpec.no_double_slash (strings.Join es "/") = true
  ∧ PathSpec.ends_with_slash (strings.Join es "/") = false.
Proof.
  induction es as [|e es IH]; [done|]. intros Hall _.
  inversion_clear Hall as [|? ? He Hes].
  destruct es as [|e' es].
  - cbn [strings.Join]. pose proof He as [Hne Hsf]. split_and!; [done| | |].
    + pose proof (good_not_starts_with_slash e "" He) as H.
      by rewrite string_app_empty_r in H.
    + pose proof (slash_free_no_double e "" Hsf eq_refl) as H.
      by rewrite string_app_empty_r in H.
    + by apply slash_free_not_ends.
  - destruct (IH Hes) as (J1 & J2 & J3 & J4); [done|].
    change (strings.Join (e :: e' :: es) "/")
      with (e +:+ String "/" (strings.Join (e' :: es) "/")).
    split_and!.
    + destruct He as [Hne _]. by destruct e.
    + by apply good_not_starts_with_slash.
    + apply slash_free_no_double; [by destruct He|].
      change (negb (true && PathSpec.starts_with_slash (strings.Join (e' :: es) "/"))
              && PathSpec.no_double_slash (strings.Join (e' :: es) "/") = true).
      by rewrite J2, J3.
    + rewrite ends_with_slash_app by done.
      remember (strings.Join (e' :: es) "/") as J eqn:EJ.
      destruct J; [done|]. exact J4.
Qed.

(** [Clean] of a path that starts with the separator is normalized. *)
Lemma Clean_rooted_normalized path :
  PathSpec.normalized (filepath.Clean (String "/" path)) = true.
Proof.
  unfold filepath.Clean.
  change (String.eqb (String "/" path) "") with false.
  change (strings.HasPrefix (String "/" path) "/") with true.
  cbv iota zeta.
  set (out := (foldl (filepath.cleanStep true) ([], 0%nat)
                 (filepath.elements (String "/" path))).1).
  assert (Hout : Forall good_element (rev out)).
  { apply Forall_rev, foldl_cleanStep_good; [apply elements_slash_free|done]. }
  destruct (rev out) as [|e es] eqn:E; [reflexivity|].
  destruct (Join_good (e :: es) Hout) as (J1 & J2 & J3 & J4); [done|].
  revert J1 J2 J3 J4. generalize (strings.Join (e :: es) "/") as J.
  intros J J1 J2 J3 J4.
  unfold PathSpec.normalized.
  change ("/" +:+ J) with (String "/" J).
  cbn [PathSpec.starts_with_slash PathSpec.no_double_slash].
  change (Ascii.eqb "/" "/") with true. rewrite J2, J3. cbn [andb negb].
  destruct J as [|a J]; [done|].
  change (PathSpec.ends_with_slash (String "/" (String a J)))
    with (PathSpec.ends_with_slash (String a J)).
  rewrite J4. apply orb_true_r.
Qed.

Example Clean_examples :
  filepath.Clean "//cdn/media/video.mp4" = "/cdn/media/video.mp4"
  ∧ filepath.Clean "//cdn/media//a///b/" = "/cdn/media/a/b"
  ∧ filepath.Clean "//cdn/media/" = "/cdn/media"
  ∧ filepath.Clean "/" = "/"
  ∧ filepath.Clean "//cdn/media/./a/../b" = "/cdn/media/b"
  ∧ filepath.Clean "/../a" = "/a"
  ∧ filepath.Clean "a/../../b" = "../b"
  ∧ filepath.Clean "" = ".".
Proof. vm_compute. done. Qed.

(** ** The Director *)

Lemma Join_rooted mappedPath remainingPath :
  filepath.Join ["/"; mappedPath; remainingPath]
  = filepath.Clean (String "/" ("/" +:+ strings.Join [mappedPath; remainingPath] "/")).
Proof. done. Qed.

Lemma Director_join_normalized mappedPath remainingPath :
  PathSpec.normalized (filepath.Join ["/"; mappedPath; remainingPath]) = true.
Proof. rewrite Join_rooted. apply Clean_rooted_normalized. Qed.

(** The header map after the three [Set]s and two [Del]s. *)
Lemma Director_headers (h : Header) host agent referer :
  let h' :=
    Header_Del
      (Header_Del
         (setFixedHeaders
            [("Host", host); ("User-Agent", agent); ("Referer", referer)] h)
         "Accept-Encoding")
      "If-Modified-Since" in
  h' !! "Host" = Some [host]
  ∧ h' !! "User-Agent" = Some [agent]
  ∧ h' !! "Referer" = Some [referer]
  ∧ h' !! "Accept-Encoding" = None
  ∧ h' !! "If-Modified-Since" = None.
Proof.
  unfold setFixedHeaders, Header_Del, Header_Set. simpl. canon_keys.
  split_and!; by simplify_map_eq.
Qed.

(** The order in which Go walks the [fixedHeaders] map does not matter. *)
Lemma setFixedHeaders_any_order (h : Header) kvs kvs' :
  NoDup (textproto.CanonicalMIMEHeaderKey <$> kvs.*1) →
  kvs ≡ₚ kvs' →
  setFixedHeaders kvs h = setFixedHeaders kvs' h.
Proof.
  intros Hnd Hp. revert h. induction Hp as [|kv l l' Hp IH|kv1 kv2 l|l1 l2 l3 H12 IH12 H23 IH23];
    intros h.
  - done.
  - simpl. apply IH. by inversion Hnd.
  - simpl. unfold Header_Set. f_equal.
    apply insert_insert_ne.
    simpl in Hnd. inversion_clear Hnd as [|? ? Hnotin _].
    intros Heq. apply Hnotin. rewrite Heq. constructor.
  - rewrite IH12 by done. apply IH23. by rewrite <- H12.
Qed.

(** C6. For every request whose first path segment matches a route, the
    Director of each revision sets the upstream scheme and host to the fixed
    origin, rewrites the path to [Join("/", targetSegment, remainder)], which
    has no doubled and no trailing separator, sets the fixed Host,
    User-Agent and Referer headers, and deletes Accept-Encoding and
    If-Modified-Since. *)
Theorem C6_director_rewrites_matched
    (routes : gmap string string) (req : Request) (targetSegment : string) :
  routes !! PathSpec.first_segment (url_Path (req_URL req)) = Some targetSegment →
  rewritten_for "https://www.xxx.com" targetSegment
    (PathSpec.remainder (url_Path (req_URL req)))
    (MainGo.Director routes req).1
  ∧ rewritten_for "https://www.xxx.com/" targetSegment
      (PathSpec.remainder (url_Path (req_URL req)))
      (Part001.Director routes req).1
  ∧ rewritten_for "https://www.xxx.com" targetSegment
      (PathSpec.remainder (url_Path (req_URL req)))
      (Part002.Director routes req).1.
Proof.
  intros H.
  unfold MainGo.Director, Part001.Director, Part002.Director.
  rewrite findRoute_unfold, H. cbn [negb].
  unfold rewritten_for. cbn [fst req_URL url_Scheme url_Host url_Path req_Host
    req_Header target].
  pose proof (Director_join_normalized targetSegment
    (PathSpec.remainder (url_Path (req_URL req)))) as Hn.
  pose proof (Director_headers (req_Header req) "www.xxx.com" userAgent
    "https://www.xxx.com") as (A1 & A2 & A3 & A4 & A5).
  pose proof (Director_headers (req_Header req) "www.xxx.com" userAgent
    "https://www.xxx.com/") as (B1 & B2 & B3 & B4 & B5).
  split_and!; done.
Qed.

(** The end-to-end example of the specification. *)
Lemma C6_director_witness :
  let routes : gmap string string := {[ "media" := "cdn/media" ]} in
  let req := mkRequest "GET" (mkURL "" "" "/media/video.mp4") "localhost:8443"
               {[ "Accept-Encoding" := ["gzip"]; "Host" := ["localhost:8443"] ]}
               "127.0.0.1:50000" in
  url_Path (req_URL (MainGo.Director routes req).1) = "/cdn/media/video.mp4"
  ∧ url_Path (req_URL (Part001.Director routes req).1) = "/cdn/media/video.mp4"
  ∧ url_Path (req_URL (Part002.Director routes req).1) = "/cdn/media/video.mp4"
  ∧ req_Header (MainGo.Director routes req).1 !! "Accept-Encoding" = None.
Proof.
  intros routes req.
  destruct (C6_director_rewrites_matched routes req "cdn/media" eq_refl)
    as (HA & HB & HC).
  destruct HA as (_ & _ & _ & A4 & _ & _ & _ & _ & A9 & _).
  destruct HB as (_ & _ & _ & B4 & _).
  destruct HC as (_ & _ & _ & C4 & _).
  rewrite A4, B4, C4. split_and!; try exact A9; vm_compute; reflexivity.
Defined.

(** On a miss the Director changes nothing but the marker (and in
    [unnamed/part_002] nothing at all). *)
Lemma Director_miss routes req :
  routes !! PathSpec.first_segment (url_Path (req_URL req)) = None →
  req_URL (MainGo.Director routes req).1 = req_URL req
  ∧ req_URL (Part001.Director routes req).1 = req_URL req
  ∧ Part002.Director routes req = (req, []).
Proof.
  intros H. unfold MainGo.Director, Part001.Director, Part002.Director.
  by rewrite findRoute_unfold, H.
Qed.

(** Lexical cleaning also resolves [..]: the rewritten path can leave the
    mapped segment. *)
Example Director_dotdot :
  let routes : gmap string string := {[ "media" := "cdn/media" ]} in
  let req := mkRequest "GET" (mkURL "" "" "/media/../../private/x") "" ∅ "" in
  url_Path (req_URL (MainGo.Director routes req).1) = "/private/x".
Proof. vm_compute. reflexivity. Qed.


(** * Further properties of the code *)

(** ** Route lookup *)

Lemma upto_after_slash_app seg rest :
  PathSpec.slash_free seg = true →
  PathSpec.upto_slash (seg +:+ String "/" rest) = seg
  ∧ PathSpec.after_slash (seg +:+ String "/" rest) = Some rest.
Proof.
  induction seg as [|c seg IH]; [done|].
  cbn [PathSpec.slash_free]. intros [Hc Hs]%andb_true_iff.
  apply negb_true_iff in Hc. destruct (IH Hs) as [IH1 IH2].
  change (String c seg +:+ String "/" rest)
    with (String c (seg +:+ String "/" rest)).
  cbn [PathSpec.upto_slash PathSpec.after_slash]. rewrite Hc.
  by rewrite IH1, IH2.
Qed.

Lemma upto_after_slash_free seg :
  PathSpec.slash_free seg = true →
  PathSpec.upto_slash seg = seg ∧ PathSpec.after_slash seg = None.
Proof.
  induction seg as [|c seg IH]; [done|].
  cbn [PathSpec.slash_free]. intros [Hc Hs]%andb_true_iff.
  apply negb_true_iff in Hc. destruct (IH Hs) as [IH1 IH2].
  cbn [PathSpec.upto_slash PathSpec.after_slash]. rewrite Hc.
  by rewrite IH1, IH2.
Qed.

Lemma strip_leading_slash_free seg t :
  PathSpec.slash_free seg = true → seg ≠ "" →
  PathSpec.strip_leading_slash (seg +:+ t) = seg +:+ t.
Proof.
  intros Hs Hne. destruct seg as [|c seg]; [done|].
  cbn [PathSpec.slash_free] in Hs. apply andb_true_iff in Hs as [Hc _].
  apply negb_true_iff, Ascii.eqb_neq in Hc.
  change (String c seg +:+ t) with (String c (seg +:+ t)).
  unfold PathSpec.strip_leading_slash.
  destruct c as [[] [] [] [] [] [] [] []]; done.
Qed.

(** X1. Composing a path as ['/'], a separator-free first segment, ['/']
    and any rest, and looking it up, gives back the route stored under that
    segment and exactly that rest; ['/'] and the segment, or the segment
    alone, give the empty rest.  Without the leading ['/'] the composed path
    gives the same result when the segment is not empty; when it is empty
    that path is ['/'] and the rest, its own leading ['/'] is the one
    stripped, and the lookup is that of the first segment of the rest. *)
Theorem X1_findRoute_of_composed_path
    (routes : gmap string string) (seg rest route : string) :
  PathSpec.slash_free seg = true → routes !! seg = Some route →
  findRoute routes (String "/" (seg +:+ String "/" rest)) = (route, rest, true)
  ∧ findRoute routes (String "/" seg) = (route, "", true)
  ∧ findRoute routes seg = (route, "", true)
  ∧ (seg ≠ "" →
     findRoute routes (seg +:+ String "/" rest) = (route, rest, true))
  ∧ (seg = "" →
     findRoute routes (seg +:+ String "/" rest)
     = match routes !! PathSpec.upto_slash rest with
       | Some route' => (route', default "" (PathSpec.after_slash rest), true)
       | None => ("", "", false)
       end).
Proof.
  intros Hs Hr.
  destruct (upto_after_slash_app seg rest Hs) as [U1 A1].
  destruct (upto_after_slash_free seg Hs) as [U2 A2].
  rewrite !findRoute_unfold.
  unfold PathSpec.first_segment, PathSpec.remainder.
  cbn [PathSpec.strip_leading_slash].
  rewrite U1, A1, U2, A2, Hr. split_and!; try done.
  - destruct (decide (seg = "")) as [E0|Hne].
    + subst seg. cbn. by rewrite Hr.
    + pose proof (strip_leading_slash_free seg "" Hs Hne) as E.
      rewrite string_app_empty_r in E. by rewrite E, U2, A2, Hr.
  - intros Hne.
    rewrite (strip_leading_slash_free seg (String "/" rest) Hs Hne).
    by rewrite U1, A1, Hr.
  - intros E0. subst seg. reflexivity.
Qed.

Lemma X1_findRoute_composed_witness :
  findRoute {[ "media" := "cdn/media" ]} "/media/a/b.mp4" = ("cdn/media", "a/b.mp4", true)
  ∧ findRoute {[ "media" := "cdn/media" ]} "media/a/b.mp4" = ("cdn/media", "a/b.mp4", true).
Proof.
  assert (Hr : ({[ "media" := "cdn/media" ]} : gmap string string) !! "media"
               = Some "cdn/media") by (vm_compute; reflexivity).
  destruct (X1_findRoute_of_composed_path {[ "media" := "cdn/media" ]}
              "media" "a/b.mp4" "cdn/media" eq_refl Hr)
    as (H1 & _ & _ & H4 & _).
  split; [exact H1|]. apply H4. discriminate.
Defined.

Lemma first_segment_slash_free p :
  PathSpec.slash_free (PathSpec.first_segment p) = true.
Proof. apply upto_slash_free. Qed.

(** X2. A route whose key contains the separator can never match: adding
    it to the table, or removing it, changes no lookup. *)
Theorem X2_route_key_with_slash_is_dead
    (routes : gmap string string) (key route p : string) :
  PathSpec.slash_free key = false →
  findRoute (<[ key := route ]> routes) p = findRoute routes p
  ∧ findRoute (delete key routes) p = findRoute routes p.
Proof.
  intros Hk. rewrite !findRoute_unfold.
  assert (Hne : key ≠ PathSpec.first_segment p).
  { intros ->. by rewrite first_segment_slash_free in Hk. }
  by rewrite lookup_insert_ne, lookup_delete_ne.
Qed.

Lemma X2_route_key_with_slash_witness :
  findRoute (<[ "api/v1" := "backend/api" ]> ∅) "/api/v1/users" = ("", "", false).
Proof.
  destruct (X2_route_key_with_slash_is_dead ∅ "api/v1" "backend/api"
              "/api/v1/users" eq_refl) as [H _].
  rewrite H. reflexivity.
Defined.

(** ** Route reload *)

Section ReloadMore.

Variable json_Unmarshal : string → string + gmap string string.

(** One [loadRoutes] either leaves the globals alone or installs a strictly
    newer modification time. *)
Lemma loadRoutes_step_lastMod fs g :
  (loadRoutes json_Unmarshal fs g).1.2 = g
  ∨ lastMod g < lastMod (loadRoutes json_Unmarshal fs g).1.2.
Proof.
  unfold loadRoutes.
  destruct (src_Stat fs) as [e|m]; simpl; [by left|].
  destruct (After m (lastMod g)) eqn:Ea; simpl; [|by left].
  destruct (src_ReadFile fs) as [e|data]; simpl; [by left|].
  destruct (json_Unmarshal data) as [e|cfg]; simpl; [by left|].
  right. unfold After in Ea. by apply Z.ltb_lt in Ea.
Qed.

Lemma routeReloader_cons fs ticks g :
  routeReloader json_Unmarshal (fs :: ticks) g
  = (let r := loadRoutes json_Unmarshal fs g in
     let tr1 := match r.1.1 with
                | Some e => r.2 ++ [EvLog (LogReloadFailed e)]
                | None => r.2
                end in
     let r' := routeReloader json_Unmarshal ticks r.1.2 in
     (r'.1, tr1 ++ r'.2)).
Proof.
  cbn [routeReloader].
  destruct (loadRoutes json_Unmarshal fs g) as [[err g1] tr].
  cbn [fst snd]. by destruct (routeReloader json_Unmarshal ticks g1).
Qed.

End ReloadMore.

(** X3. [loadRoutes] returns the nil error exactly when the stat succeeds
    and either the modification time is not after the recorded one or the
    file is read and decoded.  It returns an error exactly in three cases,
    and the error is that of the step that failed: the stat fails with it;
    or the stat succeeds with a newer time and the read fails with it; or
    those succeed and the decode fails with it.  When the modification time
    is not after the recorded one the file is not looked at, readable or
    not: the call is the one stat and leaves the globals as they are. *)
Theorem X3_loadRoutes_result
    (json_Unmarshal : string → string + gmap string string)
    (fs : RouteSource) (g : Globals) :
  ((loadRoutes json_Unmarshal fs g).1.1 = None ↔
   ∃ m, src_Stat fs = inr m
        ∧ (After m (lastMod g) = false
           ∨ ∃ data cfg, src_ReadFile fs = inr data
                         ∧ json_Unmarshal data = inr cfg))
  ∧ (∀ err, (loadRoutes json_Unmarshal fs g).1.1 = Some err ↔
       src_Stat fs = inl err
       ∨ (∃ m, src_Stat fs = inr m ∧ After m (lastMod g) = true
               ∧ src_ReadFile fs = inl err)
       ∨ (∃ m data, src_Stat fs = inr m ∧ After m (lastMod g) = true
               ∧ src_ReadFile fs = inr data ∧ json_Unmarshal data = inl err))
  ∧ (∀ m, src_Stat fs = inr m → After m (lastMod g) = false →
       loadRoutes json_Unmarshal fs g = (None, g, [EvStat routesFilePath])).
Proof.
  split_and!.
  - unfold loadRoutes.
    destruct (src_Stat fs) as [e|m]; simpl.
    { split; [done|]. by intros (? & [=] & _). }
    destruct (After m (lastMod g)) eqn:Ea; simpl.
    2:{ split; [|done]. intros _. exists m. split; [done|by left]. }
    destruct (src_ReadFile fs) as [e|data]; simpl.
    { split; [done|].
      intros (? & [= <-] & [?|(? & ? & [=] & _)]); congruence. }
    destruct (json_Unmarshal data) as [e|cfg] eqn:Ej; simpl.
    + split; [done|].
      intros (? & [= <-] & [?|(? & ? & [= <-] & ?)]); congruence.
    + split; [|done]. intros _. exists m. split; [done|]. right. eauto.
  - intros err. apply loadRoutes_error_cases.
  - intros m Hs Ha. by apply loadRoutes_not_after with m.
Qed.

(** An unreadable file whose modification time has not moved is no error. *)
Lemma X3_loadRoutes_result_witness :
  let g := {| routes := {[ "media" := "cdn/media" ]}; lastMod := 200 |} in
  let fs := {| src_Stat := inr 200; src_ReadFile := inl "permission denied" |} in
  loadRoutes sample_Unmarshal fs g = (None, g, [EvStat routesFilePath]).
Proof.
  intros g fs.
  destruct (X3_loadRoutes_result sample_Unmarshal fs g) as (_ & _ & H).
  apply (H 200); reflexivity.
Defined.

(** X4. Over any run of the reloader the recorded modification time never
    goes back, and the globals differ from the initial ones only if it has
    strictly advanced: a source that is not newer than the last one loaded
    is never installed. *)
Theorem X4_reloader_lastMod_monotone
    (json_Unmarshal : string → string + gmap string string)
    (ticks : list RouteSource) (g : Globals) :
  lastMod g ≤ lastMod (routeReloader json_Unmarshal ticks g).1
  ∧ ((routeReloader json_Unmarshal ticks g).1 = g
     ∨ lastMod g < lastMod (routeReloader json_Unmarshal ticks g).1).
Proof.
  revert g. induction ticks as [|fs ticks IH]; intros g.
  - split; [done|by left].
  - rewrite routeReloader_cons. cbn zeta. cbn [fst].
    destruct (IH (loadRoutes json_Unmarshal fs g).1.2) as [IH1 IH2].
    destruct (loadRoutes_step_lastMod json_Unmarshal fs g) as [E|Hlt].
    + rewrite E in *. done.
    + split; [lia|]. right. lia.
Qed.

(** X5. A tick whose reload fails is invisible to the rest of the run: the
    globals after the remaining ticks are those of a run without it, and its
    only trace is what it looked at and the failure line. *)
Theorem X5_failed_tick_is_skipped
    (json_Unmarshal : string → string + gmap string string)
    (fs : RouteSource) (ticks : list RouteSource) (g : Globals) (err : string) :
  (loadRoutes json_Unmarshal fs g).1.1 = Some err →
  (routeReloader json_Unmarshal (fs :: ticks) g).1
  = (routeReloader json_Unmarshal ticks g).1
  ∧ (routeReloader json_Unmarshal (fs :: ticks) g).2
    = (loadRoutes json_Unmarshal fs g).2 ++ [EvLog (LogReloadFailed err)]
      ++ (routeReloader json_Unmarshal ticks g).2.
Proof.
  intros H. rewrite routeReloader_cons. cbn zeta. rewrite H.
  rewrite (loadRoutes_error_keeps_globals json_Unmarshal fs g) by (by rewrite H).
  cbn [fst snd]. by rewrite <- app_assoc.
Qed.

(** A malformed document, then the repaired one with a newer time. *)
Lemma X5_failed_tick_witness :
  let bad := {| src_Stat := inr 200; src_ReadFile := inr "{" |} in
  let good := {| src_Stat := inr 300; src_ReadFile := inr sample_routes_json |} in
  (routeReloader sample_Unmarshal [bad; good] zeroGlobals).1
  = {| routes := {[ "media" := "cdn/media" ]}; lastMod := 300 |}.
Proof.
  intros bad good.
  destruct (X5_failed_tick_is_skipped sample_Unmarshal bad [good] zeroGlobals
              "invalid character" eq_refl) as [H _].
  rewrite H. vm_compute. reflexivity.
Defined.

Lemma loadRoutes_trace_counts json_Unmarshal fs g :
  let r := loadRoutes json_Unmarshal fs g in
  count_events is_stat r.2 = 1%nat
  ∧ (count_events is_reloaded r.2 ≤ count_events is_parse r.2)%nat
  ∧ (count_events is_parse r.2 ≤ count_events is_read r.2)%nat
  ∧ (count_events is_read r.2 ≤ 1)%nat
  ∧ (r.1.2 ≠ g → count_events is_reloaded r.2 = 1%nat).
Proof.
  unfold loadRoutes.
  destruct (src_Stat fs) as [e|m]; [|destruct (After m (lastMod g));
    [destruct (src_ReadFile fs) as [e|data];
      [|destruct (json_Unmarshal data) as [e|cfg]]|]];
    cbn [negb fst snd];
    repeat rewrite count_events_cons; rewrite ?count_events_nil;
    cbn [is_stat is_read is_parse is_reloaded];
    split_and!; try lia; try congruence.
Qed.

(** X7. How the reloader touches the file system: every tick stats the
    file exactly once; it reads at most once per tick, decodes only what it
    has read, and logs a reload only after a decode.  A tick that changes the
    globals logs exactly one reload. *)
Theorem X7_reloader_io_discipline
    (json_Unmarshal : string → string + gmap string string)
    (ticks : list RouteSource) (g : Globals) :
  let tr := (routeReloader json_Unmarshal ticks g).2 in
  count_events is_stat tr = length ticks
  ∧ (count_events is_reloaded tr ≤ count_events is_parse tr)%nat
  ∧ (count_events is_parse tr ≤ count_events is_read tr)%nat
  ∧ (count_events is_read tr ≤ length ticks)%nat
  ∧ (∀ fs, (loadRoutes json_Unmarshal fs g).1.2 ≠ g →
           count_events is_reloaded (loadRoutes json_Unmarshal fs g).2 = 1%nat).
Proof.
  cbn zeta. split_and!.
  5:{ intros fs H. by apply loadRoutes_trace_counts. }
  all: revert g; induction ticks as [|fs ticks IH]; intros g; [done|];
    rewrite routeReloader_cons; cbn zeta; cbn [snd];
    specialize (IH (loadRoutes json_Unmarshal fs g).1.2);
    destruct (loadRoutes_trace_counts json_Unmarshal fs g)
      as (T1 & T2 & T3 & T4 & _);
    destruct ((loadRoutes json_Unmarshal fs g).1.1);
    rewrite !count_events_app, ?count_events_cons, ?count_events_nil;
    cbn [is_stat is_read is_parse is_reloaded length]; lia.
Qed.

(** X8. Start-up.  The initial load runs on the zero globals: a stat, read
    or decode failure is fatal; a readable, well-formed file with a
    modification time after the zero time becomes the table; and a file whose
    modification time is not after the zero time is not read at all, the
    server starting with the empty table. *)
Theorem X8_initial_load
    (json_Unmarshal : string → string + gmap string string)
    (fs : RouteSource) :
  (∀ err, src_Stat fs = inl err →
     main_initialLoad json_Unmarshal fs = Fatal err [EvStat routesFilePath])
  ∧ (∀ m, src_Stat fs = inr m → m ≤ 0 →
     main_initialLoad json_Unmarshal fs
     = Started zeroGlobals [EvStat routesFilePath])
  ∧ (∀ m err, src_Stat fs = inr m → 0 < m → src_ReadFile fs = inl err →
     ∃ tr, main_initialLoad json_Unmarshal fs = Fatal err tr)
  ∧ (∀ m data err, src_Stat fs = inr m → 0 < m → src_ReadFile fs = inr data →
     json_Unmarshal data = inl err →
     ∃ tr, main_initialLoad json_Unmarshal fs = Fatal err tr)
  ∧ (∀ m data cfg, src_Stat fs = inr m → 0 < m → src_ReadFile fs = inr data →
     json_Unmarshal data = inr cfg →
     ∃ tr, main_initialLoad json_Unmarshal fs
           = Started {| routes := cfg; lastMod := m |} tr).
Proof.
  unfold main_initialLoad, loadRoutes, After. cbn [lastMod zeroGlobals].
  split_and!.
  - by intros err ->.
  - intros m -> Hm. by destruct (Z.ltb_spec 0 m); [lia|].
  - intros m err -> Hm ->. destruct (Z.ltb_spec 0 m); [|lia]. simpl. eauto.
  - intros m data err -> Hm -> ->. destruct (Z.ltb_spec 0 m); [|lia].
    simpl. eauto.
  - intros m data cfg -> Hm -> ->. destruct (Z.ltb_spec 0 m); [|lia].
    simpl. eauto.
Qed.

Lemma X8_initial_load_witness :
  main_initialLoad sample_Unmarshal
    {| src_Stat := inr 200; src_ReadFile := inr "{" |}
  = Fatal "invalid character"
      [EvStat routesFilePath; EvReadFile routesFilePath; EvUnmarshal "{"]
  ∧ main_initialLoad sample_Unmarshal
      {| src_Stat := inr 0; src_ReadFile := inr sample_routes_json |}
    = Started zeroGlobals [EvStat routesFilePath].
Proof.
  split.
  - destruct (X8_initial_load sample_Unmarshal
                {| src_Stat := inr 200; src_ReadFile := inr "{" |})
      as (_ & _ & _ & H & _).
    destruct (H 200 "{" "invalid character" eq_refl eq_refl eq_refl eq_refl)
      as [tr Htr].
    rewrite Htr. vm_compute in Htr. by injection Htr as <-.
  - destruct (X8_initial_load sample_Unmarshal
                {| src_Stat := inr 0; src_ReadFile := inr sample_routes_json |})
      as (_ & H & _).
    apply (H 0 eq_refl). lia.
Defined.

(** ** The Director *)

Lemma Director_other_headers (h : Header) host agent referer k :
  k ∉ director_keys →
  Header_Del
    (Header_Del
       (setFixedHeaders
          [("Host", host); ("User-Agent", agent); ("Referer", referer)] h)
       "Accept-Encoding")
    "If-Modified-Since" !! k = h !! k.
Proof.
  unfold director_keys. rewrite !not_elem_of_cons.
  intros (H1 & H2 & H3 & H4 & H5 & _).
  unfold setFixedHeaders, Header_Del, Header_Set. simpl. canon_keys.
  rewrite !lookup_delete_ne by done. by rewrite !lookup_insert_ne by done.
Qed.

(** X9. On a matched request the Director of each revision touches five
    header names only: every other header (Range, Cookie, Authorization,
    ...) is in its output as the client sent it, and so are the method and
    the remote address. *)
Theorem X9_director_keeps_other_headers
    (routes : gmap string string) (req : Request) (targetSegment k : string) :
  routes !! PathSpec.first_segment (url_Path (req_URL req)) = Some targetSegment →
  k ∉ director_keys →
  req_Header (MainGo.Director routes req).1 !! k = req_Header req !! k
  ∧ req_Header (Part001.Director routes req).1 !! k = req_Header req !! k
  ∧ req_Header (Part002.Director routes req).1 !! k = req_Header req !! k
  ∧ req_Method (MainGo.Director routes req).1 = req_Method req
  ∧ req_Method (Part001.Director routes req).1 = req_Method req
  ∧ req_Method (Part002.Director routes req).1 = req_Method req
  ∧ req_RemoteAddr (MainGo.Director routes req).1 = req_RemoteAddr req
  ∧ req_RemoteAddr (Part001.Director routes req).1 = req_RemoteAddr req
  ∧ req_RemoteAddr (Part002.Director routes req).1 = req_RemoteAddr req.
Proof.
  intros H Hk.
  unfold MainGo.Director, Part001.Director, Part002.Director.
  rewrite findRoute_unfold, H. cbn [negb fst req_Header req_Method req_RemoteAddr].
  pose proof (Director_other_headers (req_Header req) "www.xxx.com" userAgent
    "https://www.xxx.com" k Hk) as A.
  pose proof (Director_other_headers (req_Header req) "www.xxx.com" userAgent
    "https://www.xxx.com/" k Hk) as B.
  split_and!; done.
Qed.

Lemma X9_director_keeps_other_headers_witness :
  let routes : gmap string string := {[ "media" := "cdn/media" ]} in
  let req := mkRequest "GET" (mkURL "" "" "/media/video.mp4") "localhost:8443"
               {[ "Range" := ["bytes=0-1023"]; "Accept-Encoding" := ["gzip"] ]}
               "127.0.0.1:50000" in
  req_Header (MainGo.Director routes req).1 !! "Range" = Some ["bytes=0-1023"].
Proof.
  intros routes req.
  assert (Hk : "Range" ∉ director_keys).
  { unfold director_keys. rewrite !not_elem_of_cons. split_and!; try done.
    apply not_elem_of_nil. }
  destruct (X9_director_keeps_other_headers routes req "cdn/media" "Range"
              eq_refl Hk) as (H & _).
  rewrite H. reflexivity.
Defined.

(** *** What [Clean] leaves of a rooted path *)

Lemma cleanStep_rooted_clean out dotdot e :
  PathSpec.slash_free e = true → Forall clean_element out →
  Forall clean_element (filepath.cleanStep true (out, dotdot) e).1.
Proof.
  intros He Hout. unfold filepath.cleanStep.
  destruct (String.eqb e "") eqn:E0; [done|].
  destruct (String.eqb e ".") eqn:E1; [done|].
  destruct (String.eqb e "..") eqn:E2.
  - destruct (dotdot <? length out)%nat; simpl; [|done].
    destruct out; [done|]. by inversion Hout.
  - simpl. constructor; [|done].
    apply String.eqb_neq in E0, E1, E2. done.
Qed.

Lemma foldl_cleanStep_rooted_clean es st :
  Forall (λ e, PathSpec.slash_free e = true) es → Forall clean_element st.1 →
  Forall clean_element (foldl (filepath.cleanStep true) st es).1.
Proof.
  revert st. induction es as [|e es IH]; intros [out dotdot] Hes Hst;
    [exact Hst|].
  inversion_clear Hes as [|? ? He Hes']. cbn [foldl].
  apply IH; [done|].
  exact (cleanStep_rooted_clean out dotdot e He Hst).
Qed.

Lemma Clean_rooted_elements path :
  ∃ segs, Forall clean_element segs
          ∧ filepath.Clean (String "/" path) = "/" +:+ strings.Join segs "/".
Proof.
  unfold filepath.Clean.
  change (String.eqb (String "/" path) "") with false.
  change (strings.HasPrefix (String "/" path) "/") with true.
  cbv iota zeta.
  exists (rev (foldl (filepath.cleanStep true) ([], 0%nat)
                 (filepath.elements (String "/" path))).1).
  split; [|done].
  apply Forall_rev, foldl_cleanStep_rooted_clean;
    [apply elements_slash_free|done].
Qed.

Lemma elements_slash_free_single e :
  PathSpec.slash_free e = true → filepath.elements e = [e].
Proof.
  induction e as [|c e IH]; [done|].
  cbn [PathSpec.slash_free]. intros [Hc He]%andb_true_iff.
  apply negb_true_iff in Hc. cbn [filepath.elements].
  by rewrite Hc, (IH He).
Qed.

Lemma elements_app_slash e rest :
  PathSpec.slash_free e = true →
  filepath.elements (e +:+ String "/" rest) = e :: filepath.elements rest.
Proof.
  induction e as [|c e IH]; [done|].
  cbn [PathSpec.slash_free]. intros [Hc He]%andb_true_iff.
  apply negb_true_iff in Hc.
  change (String c e +:+ String "/" rest) with (String c (e +:+ String "/" rest)).
  cbn [filepath.elements]. by rewrite Hc, (IH He).
Qed.

Lemma elements_Join segs :
  Forall clean_element segs → segs ≠ [] →
  filepath.elements (strings.Join segs "/") = segs.
Proof.
  induction segs as [|e segs IH]; [done|]. intros Hall _.
  inversion_clear Hall as [|? ? (_ & _ & _ & He) Hsegs].
  destruct segs as [|e' segs].
  - cbn [strings.Join]. by apply elements_slash_free_single.
  - change (strings.Join (e :: e' :: segs) "/")
      with (e +:+ String "/" (strings.Join (e' :: segs) "/")).
    rewrite elements_app_slash by done. by rewrite IH.
Qed.

Lemma foldl_cleanStep_push segs out dotdot :
  Forall clean_element segs →
  foldl (filepath.cleanStep true) (out, dotdot) segs = (rev segs ++ out, dotdot).
Proof.
  revert out. induction segs as [|e segs IH]; intros out Hall; [done|].
  inversion_clear Hall as [|? ? (H0 & H1 & H2 & _) Hsegs].
  cbn [foldl]. unfold filepath.cleanStep at 2.
  apply String.eqb_neq in H0, H1, H2. rewrite H0, H1, H2.
  rewrite IH by done. cbn [rev]. by rewrite <- app_assoc.
Qed.

Lemma Clean_of_clean_elements segs :
  Forall clean_element segs →
  filepath.Clean ("/" +:+ strings.Join segs "/") = "/" +:+ strings.Join segs "/".
Proof.
  intros Hall. destruct segs as [|e segs]; [reflexivity|].
  unfold filepath.Clean.
  change ("/" +:+ strings.Join (e :: segs) "/")
    with (String "/" (strings.Join (e :: segs) "/")).
  change (String.eqb (String "/" (strings.Join (e :: segs) "/")) "") with false.
  change (strings.HasPrefix (String "/" (strings.Join (e :: segs) "/")) "/")
    with true.
  cbv iota zeta.
  change (filepath.elements (String "/" (strings.Join (e :: segs) "/")))
    with ("" :: filepath.elements (strings.Join (e :: segs) "/")).
  rewrite elements_Join by done.
  change (foldl (filepath.cleanStep true) ([], 0%nat) ("" :: e :: segs))
    with (foldl (filepath.cleanStep true) ([], 0%nat) (e :: segs)).
  rewrite foldl_cleanStep_push by done.
  cbn [fst]. by rewrite app_nil_r, rev_involutive.
Qed.

Lemma Join_rooted_elements mappedPath remainingPath :
  (∃ segs, Forall clean_element segs
           ∧ filepath.Join ["/"; mappedPath; remainingPath]
             = "/" +:+ strings.Join segs "/")
  ∧ filepath.Clean (filepath.Join ["/"; mappedPath; remainingPath])
    = filepath.Join ["/"; mappedPath; remainingPath].
Proof.
  rewrite Join_rooted.
  destruct (Clean_rooted_elements
              ("/" +:+ strings.Join [mappedPath; remainingPath] "/"))
    as (segs & Hsegs & E).
  split; [by exists segs|].
  rewrite E. by apply Clean_of_clean_elements.
Qed.

Lemma Director_matched_path routes req targetSegment :
  routes !! PathSpec.first_segment (url_Path (req_URL req)) = Some targetSegment →
  url_Path (req_URL (MainGo.Director routes req).1)
  = filepath.Join ["/"; targetSegment; PathSpec.remainder (url_Path (req_URL req))]
  ∧ url_Path (req_URL (Part001.Director routes req).1)
    = filepath.Join ["/"; targetSegment; PathSpec.remainder (url_Path (req_URL req))]
  ∧ url_Path (req_URL (Part002.Director routes req).1)
    = filepath.Join ["/"; targetSegment; PathSpec.remainder (url_Path (req_URL req))].
Proof.
  intros H. unfold MainGo.Director, Part001.Director, Part002.Director.
  by rewrite findRoute_unfold, H.
Qed.

(** X10. The path the Director of each revision sends upstream for a
    matched request is the separator followed by path elements joined with
    single separators, none of which is empty, [.] or [..]; it is a fixed
    point of [Clean]. *)
Theorem X10_rewritten_path_elements
    (routes : gmap string string) (req : Request) (targetSegment : string) :
  routes !! PathSpec.first_segment (url_Path (req_URL req)) = Some targetSegment →
  ∃ segs, Forall clean_element segs
    ∧ url_Path (req_URL (MainGo.Director routes req).1)
      = "/" +:+ strings.Join segs "/"
    ∧ url_Path (req_URL (Part001.Director routes req).1)
      = "/" +:+ strings.Join segs "/"
    ∧ url_Path (req_URL (Part002.Director routes req).1)
      = "/" +:+ strings.Join segs "/"
    ∧ filepath.Clean (url_Path (req_URL (MainGo.Director routes req).1))
      = url_Path (req_URL (MainGo.Director routes req).1).
Proof.
  intros H. destruct (Director_matched_path routes req targetSegment H)
    as (-> & -> & ->).
  destruct (Join_rooted_elements targetSegment
              (PathSpec.remainder (url_Path (req_URL req))))
    as [(segs & Hsegs & E) Hfix].
  exists segs. by rewrite Hfix, E.
Qed.

Lemma X10_rewritten_path_witness :
  let routes : gmap string string := {[ "media" := "cdn//media/" ]} in
  let req := mkRequest "GET" (mkURL "" "" "/media/./a/../b//c/") "" ∅ "" in
  url_Path (req_URL (MainGo.Director routes req).1) = "/cdn/media/b/c"
  ∧ ∃ segs, Forall clean_element segs
      ∧ url_Path (req_URL (MainGo.Director routes req).1)
        = "/" +:+ strings.Join segs "/".
Proof.
  intros routes req. split; [vm_compute; reflexivity|].
  destruct (X10_rewritten_path_elements routes req "cdn//media/" eq_refl)
    as (segs & H1 & H2 & _).
  by exists segs.
Defined.

(** ** The response shaper *)

Lemma shaper_cors_get resp :
  Header_Get (resp_Header (MainGo.ModifyResponse resp).1)
    "Access-Control-Allow-Origin" = "*"
  ∧ Header_Get (resp_Header (Part001.ModifyResponse resp).1)
      "Access-Control-Allow-Origin" = "*".
Proof.
  rewrite Part001_ModifyResponse_unfold. unfold MainGo.ModifyResponse.
  cbn [fst resp_Header]. by rewrite !Header_Get_Set_eq.
Qed.

(** X11. The shaper of each revision changes nothing but the two headers
    Content-Length and Access-Control-Allow-Origin and the transfer encoding:
    the status code, every other header, the request and the [ContentLength]
    field stay as the upstream sent them (the field also when the header is
    removed). *)
Theorem X11_shaper_keeps_the_rest (resp : Response) (k : string) :
  k ≠ "Content-Length" → k ≠ "Access-Control-Allow-Origin" →
  (resp_Header (MainGo.ModifyResponse resp).1 !! k = resp_Header resp !! k
   ∧ resp_Header (Part001.ModifyResponse resp).1 !! k = resp_Header resp !! k
   ∧ resp_Header (Part002.ModifyResponse resp).1 !! k = resp_Header resp !! k)
  ∧ (resp_StatusCode (MainGo.ModifyResponse resp).1 = resp_StatusCode resp
     ∧ resp_StatusCode (Part001.ModifyResponse resp).1 = resp_StatusCode resp
     ∧ resp_StatusCode (Part002.ModifyResponse resp).1 = resp_StatusCode resp)
  ∧ (resp_ContentLength (MainGo.ModifyResponse resp).1 = resp_ContentLength resp
     ∧ resp_ContentLength (Part001.ModifyResponse resp).1 = resp_ContentLength resp
     ∧ resp_ContentLength (Part002.ModifyResponse resp).1 = resp_ContentLength resp)
  ∧ (resp_Request (MainGo.ModifyResponse resp).1 = resp_Request resp
     ∧ resp_Request (Part001.ModifyResponse resp).1 = resp_Request resp
     ∧ resp_Request (Part002.ModifyResponse resp).1 = resp_Request resp).
Proof.
  intros H1 H2. unfold Part002.ModifyResponse.
  rewrite Part001_ModifyResponse_unfold. unfold MainGo.ModifyResponse.
  cbn [fst resp_Header resp_StatusCode resp_ContentLength resp_Request].
  split_and!; try done.
  - by rewrite Header_lookup_Set_ne by (by canon_keys).
  - rewrite Header_lookup_Set_ne by (by canon_keys).
    destruct (ShaperSpec.must_chunk resp); [|done].
    by rewrite Header_lookup_Del_ne by (by canon_keys).
  - rewrite Header_lookup_Set_ne by (by canon_keys).
    destruct (ShaperSpec.must_chunk resp); [|done].
    by rewrite Header_lookup_Del_ne by (by canon_keys).
Qed.

Lemma X11_shaper_keeps_the_rest_witness :
  let req := mkRequest "GET" (mkURL "https" "www.xxx.com" "/cdn/media/a") "www.xxx.com" ∅ "" in
  let video := mkResponse 206
      {[ "Content-Type" := ["video/mp4"]; "Content-Length" := ["12"];
         "Content-Range" := ["bytes 0-11/100"] ]} 12 [] req in
  resp_Header (Part001.ModifyResponse video).1 !! "Content-Range"
  = Some ["bytes 0-11/100"]
  ∧ resp_ContentLength (Part001.ModifyResponse video).1 = 12.
Proof.
  intros req video.
  assert (N1 : "Content-Range" ≠ "Content-Length") by discriminate.
  assert (N2 : "Content-Range" ≠ "Access-Control-Allow-Origin") by discriminate.
  destruct (X11_shaper_keeps_the_rest video "Content-Range" N1 N2)
    as ((_ & H & _) & _ & (_ & H' & _) & _).
  rewrite H, H'. split; reflexivity.
Defined.

Lemma must_chunk_after_shaping resp :
  ShaperSpec.must_chunk (Part001.ModifyResponse resp).1 = false.
Proof.
  rewrite Part001_ModifyResponse_unfold.
  unfold ShaperSpec.must_chunk at 1, ShaperSpec.already_chunked at 1.
  cbn [resp_Header resp_ContentLength resp_TransferEncoding].
  destruct (ShaperSpec.must_chunk resp) eqn:E.
  - rewrite (bool_decide_eq_true_2 ("chunked" ∈ ["chunked"])) by (by left).
    apply andb_false_r.
  - assert (Header_Get (Header_Set (resp_Header resp)
              "Access-Control-Allow-Origin" "*") "Content-Type"
            = Header_Get (resp_Header resp) "Content-Type") as ->.
    { apply Header_Get_lookup. by rewrite Header_lookup_Set_ne by (by canon_keys). }
    exact E.
Qed.

(** X12. Shaping is idempotent in every revision: a response that has been
    through the shaper comes out of a second pass unchanged, and the second
    pass writes no chunk line to the log. *)
Theorem X12_shaper_idempotent (resp : Response) :
  (MainGo.ModifyResponse (MainGo.ModifyResponse resp).1).1
  = (MainGo.ModifyResponse resp).1
  ∧ (Part001.ModifyResponse (Part001.ModifyResponse resp).1).1
    = (Part001.ModifyResponse resp).1
  ∧ (Part002.ModifyResponse (Part002.ModifyResponse resp).1).1
    = (Part002.ModifyResponse resp).1
  ∧ count_events is_chunk_log
      (Part001.ModifyResponse (Part001.ModifyResponse resp).1).2 = 0%nat.
Proof.
  assert (Hset : ∀ h : Header,
    Header_Set (Header_Set h "Access-Control-Allow-Origin" "*")
      "Access-Control-Allow-Origin" "*"
    = Header_Set h "Access-Control-Allow-Origin" "*").
  { intros h. unfold Header_Set. apply insert_insert_eq. }
  assert (H1 : (Part001.ModifyResponse (Part001.ModifyResponse resp).1).1
               = (Part001.ModifyResponse resp).1).
  { rewrite (Part001_ModifyResponse_unfold (Part001.ModifyResponse resp).1).
    rewrite must_chunk_after_shaping.
    rewrite Part001_ModifyResponse_unfold.
    cbn [resp_StatusCode resp_Header resp_ContentLength resp_TransferEncoding
         resp_Request]. by rewrite Hset. }
  split_and!.
  - unfold MainGo.ModifyResponse. cbn [fst resp_StatusCode resp_Header
      resp_ContentLength resp_TransferEncoding resp_Request]. by rewrite Hset.
  - exact H1.
  - exact H1.
  - pose proof (must_chunk_after_shaping resp) as Hm.
    revert Hm. generalize (Part001.ModifyResponse resp).1 as r. intros r Hm.
    unfold ShaperSpec.must_chunk, ShaperSpec.already_chunked in Hm.
    rewrite <- isVideo_streaming_media, <- isChunked_elem_of in Hm.
    unfold Part001.ModifyResponse.
    replace (1024 * 1024 <=? resp_ContentLength r)
      with (bool_decide (1024 * 1024 ≤ resp_ContentLength r)).
    2:{ destruct (Z.leb_spec (1024 * 1024) (resp_ContentLength r));
        [by apply bool_decide_eq_true_2|apply bool_decide_eq_false_2; lia]. }
    destruct (_ || _)%bool; [destruct (Part001.isChunked _); [done|]|done].
    discriminate.
Qed.

(** X13. [isChunked] is true exactly when one of the encodings is the
    string [chunked], byte for byte, at whatever position. *)
Theorem X13_isChunked_is_membership (encodings more : list string) :
  (Part001.isChunked encodings = true ↔ "chunked" ∈ encodings)
  ∧ Part001.isChunked (encodings ++ more)
    = Part001.isChunked encodings || Part001.isChunked more
  ∧ Part002.isChunked encodings = Part001.isChunked encodings.
Proof.
  split_and!; [| |done].
  - rewrite isChunked_elem_of. apply bool_decide_eq_true.
  - induction encodings as [|e rest IH]; [done|].
    cbn [app Part001.isChunked]. by destruct (String.eqb e "chunked").
Qed.

Lemma X13_isChunked_witness :
  Part001.isChunked ["gzip"; "chunked"] = true
  ∧ Part001.isChunked ["Chunked"] = false.
Proof.
  destruct (X13_isChunked_is_membership ["gzip"; "chunked"] []) as ([_ H] & _).
  split; [|reflexivity]. apply H. right. left.
Defined.

(** ** The handler and the pipeline *)

Lemma Part002_Director_no_dispatch routes req :
  count_events is_dispatch (Part002.Director routes req).2 = 0%nat.
Proof.
  unfold Part002.Director.
  destruct (findRoute routes _) as [[? ?] []]; done.
Qed.

(** X14. In the revisions with the marker the handler's own 404 depends on
    the inbound header alone: it is given exactly when [X-Proxy-Invalid]
    reads [1], whatever the path, the route table and the transport. *)
Theorem X14_marker_handler_404_iff_marker
    (RoundTrip : Request → string + Response)
    (routes : gmap string string) (r : Request) :
  ((MainGo.handler RoundTrip routes r).1 = ReplyNotFound
   ↔ Header_Get (req_Header r) "X-Proxy-Invalid" = "1")
  ∧ ((Part001.handler RoundTrip routes r).1 = ReplyNotFound
     ↔ Header_Get (req_Header r) "X-Proxy-Invalid" = "1").
Proof.
  destruct (decide (Header_Get (req_Header r) "X-Proxy-Invalid" = "1")) as [E|E].
  - unfold MainGo.handler, Part001.handler. rewrite E. done.
  - destruct (marker_handlers_pass_unmarked RoundTrip routes r E)
      as (A & _ & B & _).
    split; split; done.
Qed.

Lemma X14_marker_handler_witness :
  let routes : gmap string string := {[ "media" := "cdn/media" ]} in
  let r := mkRequest "GET" (mkURL "" "" "/media/a") "localhost:8443"
             {[ "X-Proxy-Invalid" := ["1"; "0"] ]} "127.0.0.1:50000" in
  (MainGo.handler (λ _, inl "refused") routes r).1 = ReplyNotFound.
Proof.
  intros routes r.
  destruct (X14_marker_handler_404_iff_marker (λ _, inl "refused") routes r)
    as [[_ H] _].
  apply H. reflexivity.
Defined.

(** X15. The handler of [unnamed/part_002] gives its 404 exactly when the
    first path segment is no key of the table it looks at; it then does
    nothing else.  Headers, and the table the Director will see, play no
    part. *)
Theorem X15_route_handler_404_iff_unmatched
    (RoundTrip : Request → string + Response)
    (routes routes' : gmap string string) (r : Request) :
  ((Part002.handler RoundTrip routes routes' r).1 = ReplyNotFound
   ↔ PathSpec.first_segment (url_Path (req_URL r)) ∉ dom routes)
  ∧ (PathSpec.first_segment (url_Path (req_URL r)) ∉ dom routes →
     (Part002.handler RoundTrip routes routes' r).2
     = [EvLog (Log404 (req_Method r) (url_Path (req_URL r)))]).
Proof.
  split.
  - split.
    + intros H Hin.
      by apply (Part002_handler_passes_matched RoundTrip routes routes' r Hin).
    + intros H.
      by rewrite (Part002_handler_rejects_unmatched RoundTrip routes routes' r H).
  - intros H.
    by rewrite (Part002_handler_rejects_unmatched RoundTrip routes routes' r H).
Qed.

Lemma X15_route_handler_witness :
  let routes : gmap string string := {[ "media" := "cdn/media" ]} in
  let r := mkRequest "GET" (mkURL "" "" "/unknown/x") "localhost:4433"
             {[ "X-Proxy-Invalid" := ["0"] ]} "127.0.0.1:50000" in
  (Part002.handler (λ _, inl "refused") routes routes r).2
  = [EvLog (Log404 "GET" "/unknown/x")].
Proof.
  intros routes r.
  destruct (X15_route_handler_404_iff_unmatched (λ _, inl "refused")
              routes routes r) as [_ H].
  apply H. unfold routes. rewrite dom_singleton_L.
  by intros [=]%elem_of_singleton.
Defined.

(** X16. In [unnamed/part_002] the handler and the Director look the route
    up separately.  If the table is swapped in between so that the segment
    is no longer a key, the Director returns the request untouched and the
    inbound request itself, not rewritten, is handed to the transport. *)
Theorem X16_reload_between_check_and_director
    (RoundTrip : Request → string + Response)
    (routes routes' : gmap string string) (r : Request) :
  PathSpec.first_segment (url_Path (req_URL r)) ∈ dom routes →
  PathSpec.first_segment (url_Path (req_URL r)) ∉ dom routes' →
  (Part002.handler RoundTrip routes routes' r).1 ≠ ReplyNotFound
  ∧ EvRoundTrip r ∈ (Part002.handler RoundTrip routes routes' r).2
  ∧ count_events is_dispatch (Part002.handler RoundTrip routes routes' r).2
    = 1%nat.
Proof.
  intros [t Hin]%elem_of_dom Hout%not_elem_of_dom.
  unfold Part002.handler. rewrite findRoute_unfold, Hin. cbn [negb].
  pose proof (ServeHTTP_dispatches RoundTrip (Part002.Director routes')
    Part002.ModifyResponse (Part002_Director_no_dispatch routes')
    Part001_ModifyResponse_no_dispatch r) as (A & B & C).
  assert (E : (Part002.Director routes' r).1 = r).
  { unfold Part002.Director. by rewrite findRoute_unfold, Hout. }
  rewrite E in B.
  destruct (ServeHTTP RoundTrip (Part002.Director routes') _ r) as [rep tr].
  cbn [fst snd] in *. split; [done|]. split.
  - apply elem_of_app. by left.
  - by rewrite count_events_app, count_events_cons, C.
Qed.

Lemma X16_reload_between_witness :
  let routes : gmap string string := {[ "media" := "cdn/media" ]} in
  let r := mkRequest "GET" (mkURL "" "" "/media/a") "localhost:4433" ∅
             "127.0.0.1:50000" in
  EvRoundTrip r ∈ (Part002.handler (λ _, inl "refused") routes ∅ r).2.
Proof.
  intros routes r.
  assert (Hin : PathSpec.first_segment (url_Path (req_URL r)) ∈ dom routes).
  { unfold routes. rewrite dom_singleton_L. by apply elem_of_singleton. }
  assert (Hout : PathSpec.first_segment (url_Path (req_URL r))
                 ∉ dom (∅ : gmap string string)).
  { rewrite dom_empty_L. apply not_elem_of_empty. }
  by destruct (X16_reload_between_check_and_director (λ _, inl "refused")
                 routes ∅ r Hin Hout) as (_ & H & _).
Defined.

(** X18. Whatever the request, the table and the transport: when the
    client is given an upstream response, that response carries
    [Access-Control-Allow-Origin: *]. *)
Theorem X18_upstream_reply_has_cors
    (RoundTrip : Request → string + Response)
    (routes routes' : gmap string string) (r : Request) (resp : Response) :
  ((MainGo.handler RoundTrip routes r).1 = ReplyUpstream resp →
   Header_Get (resp_Header resp) "Access-Control-Allow-Origin" = "*")
  ∧ ((Part001.handler RoundTrip routes r).1 = ReplyUpstream resp →
     Header_Get (resp_Header resp) "Access-Control-Allow-Origin" = "*")
  ∧ ((Part002.handler RoundTrip routes routes' r).1 = ReplyUpstream resp →
     Header_Get (resp_Header resp) "Access-Control-Allow-Origin" = "*").
Proof.
  unfold MainGo.handler, Part001.handler, Part002.handler, ServeHTTP.
  split_and!.
  - destruct (String.eqb _ "1"); [done|].
    destruct (MainGo.Director routes r) as [out tr1].
    destruct (RoundTrip out) as [e|res]; [done|].
    pose proof (shaper_cors_get res) as [Hc _].
    destruct (MainGo.ModifyResponse res) as [res' tr2].
    cbn [fst] in *. by intros [= <-].
  - destruct (String.eqb _ "1"); [done|].
    destruct (Part001.Director routes r) as [out tr1].
    destruct (RoundTrip out) as [e|res]; [done|].
    pose proof (shaper_cors_get res) as [_ Hc].
    destruct (Part001.ModifyResponse res) as [res' tr2].
    cbn [fst] in *. by intros [= <-].
  - destruct (findRoute routes _) as [[? ?] []]; cbn [negb]; [|done].
    destruct (Part002.Director routes' r) as [out tr1].
    destruct (RoundTrip out) as [e|res]; [done|].
    pose proof (shaper_cors_get res) as [_ Hc].
    unfold Part002.ModifyResponse.
    destruct (Part001.ModifyResponse res) as [res' tr2].
    cbn [fst] in *. by intros [= <-].
Qed.

Lemma X18_upstream_reply_witness :
  let routes : gmap string string := {[ "media" := "cdn/media" ]} in
  let r := mkRequest "GET" (mkURL "" "" "/media/a") "localhost:8443" ∅
             "127.0.0.1:50000" in
  let res := mkResponse 200 {[ "Access-Control-Allow-Origin" := ["null"] ]}
               3 [] r in
  ∃ resp, (MainGo.handler (λ _, inr res) routes r).1 = ReplyUpstream resp
          ∧ Header_Get (resp_Header resp) "Access-Control-Allow-Origin" = "*".
Proof.
  intros routes r res.
  exists (MainGo.ModifyResponse res).1.
  assert (E : (MainGo.handler (λ _, inr res) routes r).1
              = ReplyUpstream (MainGo.ModifyResponse res).1)
    by (vm_compute; reflexivity).
  split; [exact E|].
  by destruct (X18_upstream_reply_has_cors (λ _, inr res) routes routes r
                 (MainGo.ModifyResponse res).1) as [H _]; apply H.
Defined.

(** ** The buffer pool over its whole history *)

Lemma wrap_int_small z : - 2^63 ≤ z < 2^63 → wrap_int z = z.
Proof.
  intros H. unfold wrap_int. rewrite Z.mod_small by lia. lia.
Qed.

Lemma MainGo_drain_wf n picks b :
  MainGo_pool_wf b →
  MainGo_pool_wf (MainGo.drain n picks b)
  ∧ MainGo.size (MainGo.drain n picks b) = MainGo.size b
  ∧ MainGo.active (MainGo.drain n picks b) = MainGo.active b
  ∧ MainGo.idleTimerArmed (MainGo.drain n picks b) = MainGo.idleTimerArmed b.
Proof.
  revert b. induction n as [|n IH]; intros b Hwf; [done|].
  cbn [MainGo.drain].
  pose proof (Pool_Get_item (picks n) (make_bytes (MainGo.size b)) (MainGo.pool b)
                (λ x, x = make_bytes (MainGo.size b)) eq_refl Hwf) as [_ H2].
  destruct (sync.Pool_Get _ _ _) as [x items]. cbn [snd] in H2.
  by apply (IH {| MainGo.pool := items; MainGo.size := MainGo.size b;
                  MainGo.idleTimerArmed := MainGo.idleTimerArmed b;
                  MainGo.active := MainGo.active b |}).
Qed.

Lemma MainGo_cleanup_wf picks b :
  MainGo_pool_wf b →
  MainGo_pool_wf (MainGo.cleanup picks b).1
  ∧ MainGo.size (MainGo.cleanup picks b).1 = MainGo.size b
  ∧ MainGo.active (MainGo.cleanup picks b).1 = MainGo.active b
  ∧ MainGo.idleTimerArmed (MainGo.cleanup picks b).1 = MainGo.idleTimerArmed b.
Proof.
  intros Hwf. unfold MainGo.cleanup.
  destruct (MainGo.active b <=? 0); cbn [fst]; [|done].
  apply (MainGo_drain_wf 10 picks b Hwf).
Qed.

Lemma MainGo_poolStep_wf b op :
  MainGo_pool_wf b →
  MainGo_pool_wf (MainGo_poolStep b op)
  ∧ MainGo.size (MainGo_poolStep b op) = MainGo.size b.
Proof.
  intros Hwf. destruct op as [pick|buf| |picks]; cbn [MainGo_poolStep].
  - by destruct (MainGo_Get_wf pick b Hwf) as (_ & ? & ?).
  - split; [by apply MainGo_Put_wf|done].
  - done.
  - by destruct (MainGo_cleanup_wf picks b Hwf) as (? & ? & _).
Qed.

Lemma MainGo_poolRun_wf ops b :
  MainGo_pool_wf b →
  MainGo_pool_wf (MainGo_poolRun ops b)
  ∧ MainGo.size (MainGo_poolRun ops b) = MainGo.size b.
Proof.
  unfold MainGo_poolRun. revert b.
  induction ops as [|op ops IH]; intros b Hwf; [done|].
  cbn [foldl]. destruct (MainGo_poolStep_wf b op Hwf) as [H1 H2].
  destruct (IH _ H1) as [H3 H4]. split; [done|congruence].
Qed.

(** X20. Whatever has been done to the pool of [main.go] since it was
    created (any [Get], [Put] of any buffer, idle cleanups, in any order),
    it only ever holds slices of exactly [size] bytes with that capacity, and
    the next [Get] hands out such a slice. *)
Theorem X20_main_pool_hands_out_exact_size
    (size : Z) (ops : list PoolOp) (pick : option nat) :
  let b := MainGo_poolRun ops (MainGo.newBufferPool size) in
  MainGo.size b = size
  ∧ Forall (λ x, buf_len x = size ∧ buf_cap x = size) (MainGo.pool b)
  ∧ buf_len (MainGo.Get pick b).1 = size
  ∧ buf_cap (MainGo.Get pick b).1 = size.
Proof.
  intros b.
  destruct (MainGo_poolRun_wf ops (MainGo.newBufferPool size)
              (MainGo_newBufferPool_wf size)) as [Hwf Hsz].
  fold b in Hwf, Hsz. cbn [MainGo.size MainGo.newBufferPool] in Hsz.
  destruct (MainGo_Get_exact_size pick b Hwf) as [H1 H2].
  rewrite Hsz in H1, H2. split_and!; try done.
  unfold MainGo_pool_wf in Hwf. rewrite Hsz in Hwf.
  eapply Forall_impl; [exact Hwf|]. by intros x ->.
Qed.

Lemma Part001_poolRun_wf ops b :
  Part001_pool_wf b → Part001_pool_wf (Part001_poolRun ops b).
Proof.
  unfold Part001_poolRun. revert b.
  induction ops as [|op ops IH]; intros b Hwf; [done|].
  cbn [foldl]. apply IH. destruct op as [pick|buf]; cbn [Part001_poolStep].
  - by apply Part001_Get_wf.
  - by apply Part001_Put_wf.
Qed.

(** X21. The pool of [unnamed/part_001] and [unnamed/part_002], created
    as the program does with [newBufferPool(bufferSize)], after any history
    of [Get] and [Put] of any buffers: every pooled slice, and the slice the
    next [Get] hands out, has length exactly [bufferSize] and capacity at
    least [bufferSize]. *)
Theorem X21_plain_pool_hands_out_bufferSize
    (ops : list PlainPoolOp) (pick : option nat) :
  let b := Part001_poolRun ops (Part001.newBufferPool Part001.bufferSize) in
  Forall (λ x, buf_len x = Part001.bufferSize
               ∧ Part001.bufferSize ≤ buf_cap x) (Part001.pool b)
  ∧ buf_len (Part001.Get pick b).1 = Part001.bufferSize
  ∧ Part001.bufferSize ≤ buf_cap (Part001.Get pick b).1.
Proof.
  intros b.
  pose proof (Part001_poolRun_wf ops _ Part001_newBufferPool_wf) as [Hn Hall].
  fold b in Hn, Hall. split; [done|].
  unfold Part001.Get.
  pose proof (Pool_Get_item pick (make_bytes (Part001.newSize b)) (Part001.pool b)
                (λ x, buf_len x = Part001.bufferSize
                      ∧ Part001.bufferSize ≤ buf_cap x)) as K.
  destruct K as [K _]; [by rewrite Hn|done|].
  by destruct (sync.Pool_Get _ _ _).
Qed.

Lemma MainGo_Get_empty pick b :
  MainGo.pool b = [] →
  MainGo.Get pick b
  = (make_bytes (MainGo.size b),
     {| MainGo.pool := []; MainGo.size := MainGo.size b;
        MainGo.idleTimerArmed := false;
        MainGo.active := wrap_int (MainGo.active b + 1) |}).
Proof.
  intros H. unfold MainGo.Get, sync.Pool_Get. rewrite H.
  destruct pick as [i|]; [|done]. by rewrite lookup_nil.
Qed.

Lemma MainGo_acquireAll_empty picks b :
  MainGo.pool b = [] → 0 ≤ MainGo.active b →
  MainGo.active b + Z.of_nat (length picks) < 2^63 →
  (MainGo_acquireAll picks b).1
  = replicate (length picks) (make_bytes (MainGo.size b))
  ∧ MainGo.pool (MainGo_acquireAll picks b).2 = []
  ∧ MainGo.size (MainGo_acquireAll picks b).2 = MainGo.size b
  ∧ MainGo.active (MainGo_acquireAll picks b).2
    = MainGo.active b + Z.of_nat (length picks)
  ∧ MainGo.idleTimerArmed (MainGo_acquireAll picks b).2
    = match picks with
      | [] => MainGo.idleTimerArmed b
      | _ :: _ => false
      end.
Proof.
  revert b. induction picks as [|pick picks IH]; intros b Hp Ha Hb.
  - cbn [MainGo_acquireAll length replicate fst snd]. split_and!; try done. lia.
  - cbn [MainGo_acquireAll]. rewrite (MainGo_Get_empty pick b Hp).
    cbn [length] in Hb.
    rewrite wrap_int_small by lia.
    set (b1 := {| MainGo.pool := []; MainGo.size := MainGo.size b;
                  MainGo.idleTimerArmed := false;
                  MainGo.active := MainGo.active b + 1 |}).
    destruct (IH b1) as (I1 & I2 & I3 & I4 & I5);
      [done|cbn; lia|cbn; lia|].
    destruct (MainGo_acquireAll picks b1) as [bufs b2].
    cbn [fst snd length replicate] in *.
    split_and!; try done.
    + by rewrite I1.
    + rewrite I4. unfold b1. cbn [MainGo.active]. lia.
    + rewrite I5. by destruct picks.
Qed.

Lemma MainGo_releaseAll_replicate n b :
  - 2^63 ≤ MainGo.active b - Z.of_nat n → MainGo.active b < 2^63 →
  length (MainGo.pool (MainGo_releaseAll
            (replicate n (make_bytes (MainGo.size b))) b))
  = (length (MainGo.pool b) + n)%nat
  ∧ MainGo.active (MainGo_releaseAll
                     (replicate n (make_bytes (MainGo.size b))) b)
    = MainGo.active b - Z.of_nat n
  ∧ MainGo.idleTimerArmed (MainGo_releaseAll
                             (replicate n (make_bytes (MainGo.size b))) b)
    = match n with
      | O => MainGo.idleTimerArmed b
      | S _ => if MainGo.active b - Z.of_nat n <=? 0 then true
               else MainGo.idleTimerArmed b
      end.
Proof.
  unfold MainGo_releaseAll. revert b.
  induction n as [|n IH]; intros b Hlo Hhi.
  - cbn [replicate foldl]. split_and!; [lia|lia|done].
  - cbn [replicate foldl].
    set (b1 := MainGo.Put (make_bytes (MainGo.size b)) b).
    assert (Hs : MainGo.size b1 = MainGo.size b) by done.
    assert (Ha : MainGo.active b1 = MainGo.active b - 1).
    { unfold b1, MainGo.Put. cbn [MainGo.active]. apply wrap_int_small. lia. }
    assert (Hl : length (MainGo.pool b1) = S (length (MainGo.pool b))).
    { unfold b1. rewrite MainGo_Put_pool. cbn [buf_cap make_bytes].
      by rewrite Z.eqb_refl. }
    assert (Ht : MainGo.idleTimerArmed b1
                 = if MainGo.active b - 1 <=? 0 then true
                   else MainGo.idleTimerArmed b).
    { unfold b1, MainGo.Put. cbn [MainGo.idleTimerArmed].
      by rewrite wrap_int_small by lia. }
    rewrite <- Hs. destruct (IH b1) as (I1 & I2 & I3); [lia|lia|].
    rewrite I1, I2, I3, Hl, Ha, Ht. split_and!; [lia|lia|].
    destruct n as [|n'].
    + by replace (MainGo.active b - Z.of_nat 1) with (MainGo.active b - 1) by lia.
    + replace (MainGo.active b - 1 - Z.of_nat (S n'))
        with (MainGo.active b - Z.of_nat (S (S n'))) by lia.
      destruct (Z.leb_spec (MainGo.active b - Z.of_nat (S (S n'))) 0); [done|].
      destruct (Z.leb_spec (MainGo.active b - 1) 0); [lia|done].
Qed.

(** X22. A burst on a fresh pool of [main.go]: [n] requests take a
    buffer each before any gives one back.  Every one of them gets a freshly
    allocated slice of [size] bytes, the count of handed-out buffers is [n]
    and the idle timer is off; once all are given back the pool holds [n]
    buffers, the count is 0 and the idle timer is armed. *)
Theorem X22_burst_fills_pool (size : Z) (picks : list (option nat)) :
  Z.of_nat (length picks) < 2^63 →
  let r := MainGo_acquireAll picks (MainGo.newBufferPool size) in
  let b2 := MainGo_releaseAll r.1 r.2 in
  r.1 = replicate (length picks) (make_bytes size)
  ∧ MainGo.pool r.2 = []
  ∧ MainGo.active r.2 = Z.of_nat (length picks)
  ∧ length (MainGo.pool b2) = length picks
  ∧ MainGo.active b2 = 0
  ∧ (picks ≠ [] →
     MainGo.idleTimerArmed r.2 = false ∧ MainGo.idleTimerArmed b2 = true).
Proof.
  intros Hn r b2.
  destruct (MainGo_acquireAll_empty picks (MainGo.newBufferPool size))
    as (A1 & A2 & A3 & A4 & A5); [done|done|cbn; lia|].
  fold r in A1, A2, A3, A4, A5.
  cbn [MainGo.size MainGo.active MainGo.newBufferPool] in A1, A3, A4.
  assert (E : r.1 = replicate (length picks) (make_bytes (MainGo.size r.2)))
    by (by rewrite A3).
  destruct (MainGo_releaseAll_replicate (length picks) r.2)
    as (R1 & R2 & R3); [lia|lia|].
  rewrite <- E in R1, R2, R3. fold b2 in R1, R2, R3.
  rewrite A2 in R1. rewrite A4 in R2, R3.
  split_and!; try done; try lia.
  intros Hne. split; [rewrite A5; by destruct picks|].
  rewrite R3. destruct picks; [done|]. cbn [length].
  by rewrite Z.sub_diag.
Qed.

Lemma X22_burst_witness :
  let r := MainGo_acquireAll [None; Some 0%nat; None]
             (MainGo.newBufferPool MainGo.bufferSize) in
  length (MainGo.pool (MainGo_releaseAll r.1 r.2)) = 3%nat
  ∧ MainGo.idleTimerArmed (MainGo_releaseAll r.1 r.2) = true.
Proof.
  intros r.
  assert (Hn : Z.of_nat (length [None; Some 0%nat; None]) < 2^63)
    by (vm_compute; reflexivity).
  destruct (X22_burst_fills_pool MainGo.bufferSize [None; Some 0%nat; None] Hn)
    as (_ & _ & _ & H4 & _ & H6).
  split; [exact H4|]. apply H6. discriminate.
Defined.

Lemma MainGo_drain_bookkeeping n picks c :
  MainGo.active (MainGo.drain n picks c) = MainGo.active c
  ∧ MainGo.idleTimerArmed (MainGo.drain n picks c) = MainGo.idleTimerArmed c.
Proof.
  revert c. induction n as [|n IH]; intros c; [done|]. cbn [MainGo.drain].
  destruct (sync.Pool_Get _ _ _) as [x items].
  by destruct (IH {| MainGo.pool := items; MainGo.size := MainGo.size c;
                     MainGo.idleTimerArmed := MainGo.idleTimerArmed c;
                     MainGo.active := MainGo.active c |}) as [-> ->].
Qed.

Lemma MainGo_cleanup_bookkeeping picks b :
  MainGo.active (MainGo.cleanup picks b).1 = MainGo.active b
  ∧ MainGo.idleTimerArmed (MainGo.cleanup picks b).1 = MainGo.idleTimerArmed b.
Proof.
  unfold MainGo.cleanup. destruct (MainGo.active b <=? 0); cbn [fst]; [|done].
  apply MainGo_drain_bookkeeping.
Qed.

Lemma MainGo_poolStep_timer b op :
  - 2^63 < MainGo.active b < 2^63 - 1 →
  (MainGo.idleTimerArmed b = true → MainGo.active b ≤ 0) →
  Z.abs (MainGo.active (MainGo_poolStep b op)) ≤ Z.abs (MainGo.active b) + 1
  ∧ (MainGo.idleTimerArmed (MainGo_poolStep b op) = true →
     MainGo.active (MainGo_poolStep b op) ≤ 0).
Proof.
  intros Hb Hinv. destruct op as [pick|buf| |picks]; cbn [MainGo_poolStep].
  - unfold MainGo.Get. destruct (sync.Pool_Get _ _ _) as [x items].
    cbn [snd MainGo.active MainGo.idleTimerArmed].
    rewrite wrap_int_small by lia. split; [lia|done].
  - unfold MainGo.Put. cbn [MainGo.active MainGo.idleTimerArmed].
    rewrite wrap_int_small by lia. split; [lia|].
    destruct (Z.leb_spec (MainGo.active b - 1) 0) as [Hle|Hgt]; [done|].
    intros Harm. specialize (Hinv Harm). lia.
  - cbn [MainGo.active MainGo.idleTimerArmed]. split; [lia|done].
  - destruct (MainGo_cleanup_bookkeeping picks b) as [-> ->].
    split; [lia|done].
Qed.

Lemma MainGo_poolRun_timer ops b :
  Z.abs (MainGo.active b) + Z.of_nat (length ops) < 2^63 - 1 →
  (MainGo.idleTimerArmed b = true → MainGo.active b ≤ 0) →
  Z.abs (MainGo.active (MainGo_poolRun ops b))
  ≤ Z.abs (MainGo.active b) + Z.of_nat (length ops)
  ∧ (MainGo.idleTimerArmed (MainGo_poolRun ops b) = true →
     MainGo.active (MainGo_poolRun ops b) ≤ 0).
Proof.
  unfold MainGo_poolRun. revert b.
  induction ops as [|op ops IH]; intros b Hb Hinv.
  - cbn [foldl length]. split; [lia|done].
  - cbn [foldl length] in *.
    destruct (MainGo_poolStep_timer b op) as [S1 S2]; [lia|done|].
    destruct (IH (MainGo_poolStep b op)) as [I1 I2]; [lia|done|].
    split; [lia|done].
Qed.

(** X23. In the pool of [main.go], over any history of [Get], [Put] and
    idle cleanups since its creation (shorter than the range of an [int]),
    the idle timer is armed only while no buffer is handed out: armed
    implies [active <= 0]. *)
Theorem X23_idle_timer_only_when_idle (size : Z) (ops : list PoolOp) :
  Z.of_nat (length ops) < 2^63 - 1 →
  let b := MainGo_poolRun ops (MainGo.newBufferPool size) in
  (MainGo.idleTimerArmed b = true → MainGo.active b ≤ 0)
  ∧ Z.abs (MainGo.active b) ≤ Z.of_nat (length ops).
Proof.
  intros Hn b.
  destruct (MainGo_poolRun_timer ops (MainGo.newBufferPool size))
    as [H1 H2]; [cbn; lia|done|].
  fold b in H1, H2. cbn [MainGo.active MainGo.newBufferPool] in H1.
  split; [done|lia].
Qed.

Lemma X23_idle_timer_witness :
  let b := MainGo_poolRun [OpGet None; OpGet None; OpPut (make_bytes 16777216)]
             (MainGo.newBufferPool MainGo.bufferSize) in
  MainGo.active b = 1 ∧ MainGo.idleTimerArmed b = false.
Proof.
  intros b. split; [reflexivity|].
  assert (Hn : Z.of_nat (length [OpGet None; OpGet None;
                                 OpPut (make_bytes 16777216)]) < 2^63 - 1)
    by (vm_compute; reflexivity).
  destruct (X23_idle_timer_only_when_idle MainGo.bufferSize
              [OpGet None; OpGet None; OpPut (make_bytes 16777216)] Hn)
    as [H _].
  fold b in H. destruct (MainGo.idleTimerArmed b) eqn:E; [|done].
  specialize (H eq_refl). vm_compute in H. by destruct H.
Defined.

Lemma MainGo_drain_size n picks c :
  MainGo.size (MainGo.drain n picks c) = MainGo.size c.
Proof.
  revert c. induction n as [|n IH]; intros c; [done|]. cbn [MainGo.drain].
  destruct (sync.Pool_Get _ _ _) as [x items]. by rewrite IH.
Qed.

(** X24. The idle cleanup of [main.go] makes no call on the timer and
    never changes the size or the count of handed-out buffers.  While a
    buffer is handed out it changes nothing at all and logs nothing;
    otherwise it drops at most ten pooled buffers and logs one line. *)
Theorem X24_cleanup_effect (picks : nat → option nat) (b : MainGo.bufferPool) :
  MainGo.idleTimerArmed (MainGo.cleanup picks b).1 = MainGo.idleTimerArmed b
  ∧ MainGo.size (MainGo.cleanup picks b).1 = MainGo.size b
  ∧ MainGo.active (MainGo.cleanup picks b).1 = MainGo.active b
  ∧ (0 < MainGo.active b → MainGo.cleanup picks b = (b, []))
  ∧ (MainGo.active b ≤ 0 →
     (length (MainGo.pool b) - 10
      ≤ length (MainGo.pool (MainGo.cleanup picks b).1))%nat
     ∧ (length (MainGo.pool (MainGo.cleanup picks b).1)
        ≤ length (MainGo.pool b))%nat
     ∧ (MainGo.cleanup picks b).2 = [EvLog LogPoolCleaned]).
Proof.
  destruct (MainGo_cleanup_bookkeeping picks b) as [Ha Ht].
  assert (Hs : MainGo.size (MainGo.cleanup picks b).1 = MainGo.size b).
  { unfold MainGo.cleanup. destruct (MainGo.active b <=? 0); cbn [fst]; [|done].
    apply MainGo_drain_size. }
  split_and!; try done.
  - intros Hgt. unfold MainGo.cleanup.
    by destruct (Z.leb_spec (MainGo.active b) 0); [lia|].
  - intros Hle. unfold MainGo.cleanup.
    destruct (Z.leb_spec (MainGo.active b) 0); [|lia]. cbn [fst snd].
    pose proof (MainGo_drain_pool_length 10 picks b) as [L1 L2].
    split_and!; done.
Qed.

(** The timer fires, a [Put] re-arms it before [cleanup] has the mutex:
    [cleanup] leaves it armed. *)
Lemma X24_cleanup_witness :
  let b := MainGo_poolRun [OpGet None; OpPut (make_bytes 16); OpTimerFires;
                           OpGet (Some 0%nat); OpPut (make_bytes 16)]
             (MainGo.newBufferPool 16) in
  MainGo.idleTimerArmed (MainGo.cleanup (λ _, Some 0%nat) b).1 = true
  ∧ (MainGo.cleanup (λ _, Some 0%nat) b).2 = [EvLog LogPoolCleaned].
Proof.
  intros b.
  destruct (X24_cleanup_effect (λ _, Some 0%nat) b) as (H1 & _ & _ & _ & H5).
  split; [rewrite H1; reflexivity|].
  destruct H5 as (_ & _ & H); [vm_compute; discriminate|]. exact H.
Defined.

Lemma fixedHeaders_keys_NoDup :
  NoDup (textproto.CanonicalMIMEHeaderKey <$> MainGo.fixedHeaders.*1)
  ∧ NoDup (textproto.CanonicalMIMEHeaderKey <$> Part001.fixedHeaders.*1)
  ∧ NoDup (textproto.CanonicalMIMEHeaderKey <$> Part002.fixedHeaders.*1).
Proof.
  assert (H : NoDup ["Host"; "User-Agent"; "Referer"]).
  { repeat (apply NoDup_cons; split);
      rewrite ?not_elem_of_cons; try apply NoDup_nil_2;
      split_and?; try done; apply not_elem_of_nil. }
  split_and!; exact H.
Qed.

(** X25. [fixedHeaders] is a Go map, walked in an unspecified order: in
    whatever order its three entries are applied, the resulting headers are
    the same. *)
Theorem X25_fixed_headers_any_order (h : Header) (kvs : list (string * string)) :
  (kvs ≡ₚ MainGo.fixedHeaders →
   setFixedHeaders kvs h = setFixedHeaders MainGo.fixedHeaders h)
  ∧ (kvs ≡ₚ Part001.fixedHeaders →
     setFixedHeaders kvs h = setFixedHeaders Part001.fixedHeaders h)
  ∧ (kvs ≡ₚ Part002.fixedHeaders →
     setFixedHeaders kvs h = setFixedHeaders Part002.fixedHeaders h).
Proof.
  destruct fixedHeaders_keys_NoDup as (N1 & N2 & N3).
  split_and!; intros Hp; symmetry;
    apply setFixedHeaders_any_order; done.
Qed.

Lemma X25_fixed_headers_witness :
  setFixedHeaders
    [ ("Referer", "https://www.xxx.com"); ("Host", "www.xxx.com");
      ("User-Agent", userAgent) ] ∅
  = setFixedHeaders MainGo.fixedHeaders ∅.
Proof.
  destruct (X25_fixed_headers_any_order ∅
    [ ("Referer", "https://www.xxx.com"); ("Host", "www.xxx.com");
      ("User-Agent", userAgent) ]) as [H _].
  apply H. unfold MainGo.fixedHeaders.
  etrans; [apply Permutation_swap|]. apply Permutation_skip, Permutation_swap.
Defined.

(** ** The split inside [findRoute] *)

Lemma Join_SplitN_slash s :
  strings.Join (strings.SplitN s "/" 2) "/" = s.
Proof.
  rewrite SplitN_slash_2. pose proof (cut_at_first_slash s) as H.
  destruct (PathSpec.after_slash s) as [r|] eqn:E.
  - cbn [strings.Join]. symmetry. exact H.
  - cbn [strings.Join]. by apply upto_slash_all.
Qed.

(** X26. The split in [findRoute] never yields an empty slice, so its
    guard [len(parts) < 1] never fires: there are one or two parts, the
    first has no separator, and joined with the separator they give back the
    path without its one leading separator. *)
Theorem X26_findRoute_split_never_empty (path : string) :
  let parts := strings.SplitN (strings.TrimPrefix path "/") "/" 2 in
  (1 ≤ length parts ≤ 2)%nat
  ∧ (length parts <? 1)%nat = false
  ∧ PathSpec.slash_free (nth 0 parts "") = true
  ∧ strings.Join parts "/" = strings.TrimPrefix path "/"
  ∧ (strings.TrimPrefix path "/" = path
     ∨ path = String "/" (strings.TrimPrefix path "/")).
Proof.
  intros parts.
  assert (Hj : strings.Join parts "/" = strings.TrimPrefix path "/")
    by apply Join_SplitN_slash.
  unfold parts in *. rewrite SplitN_slash_2 in *.
  rewrite TrimPrefix_slash in *.
  assert (Ht : PathSpec.strip_leading_slash path = path
               ∨ path = String "/" (PathSpec.strip_leading_slash path)).
  { destruct path as [|c p]; [by left|].
    destruct (Ascii.eqb c "/") eqn:Ec.
    - apply Ascii.eqb_eq in Ec as ->. by right.
    - left. apply Ascii.eqb_neq in Ec. unfold PathSpec.strip_leading_slash.
      destruct c as [[] [] [] [] [] [] [] []]; done. }
  pose proof (upto_slash_free (PathSpec.strip_leading_slash path)) as Hf.
  destruct (PathSpec.after_slash (PathSpec.strip_leading_slash path));
    cbn [length nth]; split_and!; try done; lia.
Qed.

Lemma X7_reloader_io_witness :
  let bad := {| src_Stat := inr 200; src_ReadFile := inr "{" |} in
  let gone := {| src_Stat := inl "no such file"; src_ReadFile := inl "no such file" |} in
  count_events is_stat (routeReloader sample_Unmarshal [bad; gone; bad] zeroGlobals).2
  = 3%nat.
Proof.
  intros bad gone.
  by destruct (X7_reloader_io_discipline sample_Unmarshal [bad; gone; bad]
                 zeroGlobals) as (H & _).
Defined.

Lemma X4_reloader_lastMod_witness :
  let new := {| src_Stat := inr 300; src_ReadFile := inr sample_routes_json |} in
  let old := {| src_Stat := inr 100; src_ReadFile := inr "{" |} in
  300 ≤ lastMod (routeReloader sample_Unmarshal [old]
                   (routeReloader sample_Unmarshal [new] zeroGlobals).1).1.
Proof.
  intros new old.
  by destruct (X4_reloader_lastMod_monotone sample_Unmarshal [old]
                 (routeReloader sample_Unmarshal [new] zeroGlobals).1) as [H _].
Defined.

Lemma X20_main_pool_witness :
  let b := MainGo_poolRun
             [OpGet None; OpPut (make_bytes 4096); OpPut (make_bytes 16777216);
              OpCleanup (λ _, None); OpPut (mkBuffer 10 16777216)]
             (MainGo.newBufferPool MainGo.bufferSize) in
  length (MainGo.pool b) = 2%nat
  ∧ buf_len (MainGo.Get (Some 0%nat) b).1 = MainGo.bufferSize.
Proof.
  intros b. split; [reflexivity|].
  by destruct (X20_main_pool_hands_out_exact_size MainGo.bufferSize
                 [OpGet None; OpPut (make_bytes 4096); OpPut (make_bytes 16777216);
                  OpCleanup (λ _, None); OpPut (mkBuffer 10 16777216)]
                 (Some 0%nat)) as (_ & _ & H & _).
Defined.

Lemma X21_plain_pool_witness :
  let b := Part001_poolRun [PPut (mkBuffer 5 (Part001.bufferSize + 7))]
             (Part001.newBufferPool Part001.bufferSize) in
  buf_cap (Part001.Get (Some 0%nat) b).1 = Part001.bufferSize + 7
  ∧ buf_len (Part001.Get (Some 0%nat) b).1 = Part001.bufferSize.
Proof.
  intros b. split; [reflexivity|].
  by destruct (X21_plain_pool_hands_out_bufferSize
                 [PPut (mkBuffer 5 (Part001.bufferSize + 7))] (Some 0%nat))
    as (_ & H & _).
Defined.
